(** * VoterHack: the real-time reconciliation and derived-state engine

    A shallow embedding of the dashboard's client-side core:
    - [Supabase]    : the row types of [lib/supabase] and [fetchPosteriors];
    - [UseRealtime] : the [useRealtime] hook (entity store, push channel,
                      fallback polling, election-type switch);
    - [TurnoutMap]  : the pure style functions of [TurnoutMap.tsx] and its
                      change detection;
    - [Dashboard]   : signal classification, the bounded signal log and the
                      [recentlyUpdated] highlight set of [Dashboard].

    JavaScript numbers are modelled by exact rationals ([Q]): the rows come
    from JSON, so NaN and the infinities do not occur, and every constant the
    code compares against is a short decimal.  [number | null] is [option Q];
    a [Map<string, _>] is a [gmap string _]; a [Set<string>] a [gset string]. *)

From Stdlib Require Import ZArith QArith Qminmax Qabs Qround Lia Lqa.
From stdpp Require Import base gmap strings list sorting.

Local Open Scope string_scope.

(** ** lib/supabase *)

Module Supabase.

Inductive ElectionType := midterm_2026 | presidential | midterm.

#[global] Instance ElectionType_eq_dec : EqDecision ElectionType.
Proof. solve_decision. Defined.

Inductive NeighborTurnoutLevel :=
  almost_all | most | about_half | probably_not | definitely_not.

Inductive TurnoutDirection :=
  much_higher | little_higher | about_same | little_lower | much_lower.

Record PosteriorEstimate := {
  geo_id : string;
  election_type : ElectionType;
  mu_prior : option Q;
  mu_post : option Q;
  sigma_prior : option Q;
  sigma_post : option Q;
  divergence_z : option Q;
  delta_mean : option Q;
  n_eff : option Q;
  is_visible : bool;
  updated_at : string
}.

(** The columns of a [poll_submissions] row that the dashboard reads. *)
Record PollSubmission := {
  sub_id : string;
  created_at : string;
  sub_geo_id : string;
  neighbor_turnout : NeighborTurnoutLevel;
  turnout_direction : TurnoutDirection
}.

(** [fetchPosteriors]: [select * from posterior_estimates where
    election_type = electionType], run against the remote table. *)
Definition fetchPosteriors (electionType : ElectionType)
    (table : list PosteriorEstimate) : list PosteriorEstimate :=
  filter (λ r, election_type r = electionType) table.

End Supabase.

(** ** hooks/useRealtime *)

Module UseRealtime.
Import Supabase.

(** The updater of the push handler,
    [prev => new Map(prev).set(row.geo_id, row)]. *)
Definition merge (row : PosteriorEstimate)
    (prev : gmap string PosteriorEstimate) : gmap string PosteriorEstimate :=
  <[geo_id row := row]> prev.

(** Updaters queued on the store are applied in call order. *)
Definition merge_all (rows : list PosteriorEstimate)
    (prev : gmap string PosteriorEstimate) : gmap string PosteriorEstimate :=
  foldl (λ m row, merge row m) prev rows.

(** [new Map(data.map(r => [r.geo_id, r]))]: the [Map] constructor inserts
    the pairs left to right, so a later duplicate key replaces an earlier. *)
Definition new_Map (data : list PosteriorEstimate)
    : gmap string PosteriorEstimate :=
  foldl (λ m r, <[geo_id r := r]> m) ∅ data.

(** The [postgres_changes] callback of the channel opened for
    [electionType], as an update of the store. *)
Definition on_postgres_changes (electionType : ElectionType)
    (row : PosteriorEstimate) (prev : gmap string PosteriorEstimate)
    : gmap string PosteriorEstimate :=
  if decide (election_type row = electionType) then merge row prev else prev.

(** The hook's state.  [channel] is the election type of the one live
    push channel; [inflight] lists, oldest first, the election types that
    the calls of [load] still awaiting [fetchPosteriors] were made for
    (each [load] closure captures its own [electionType]). *)
Record Hook := {
  electionType : ElectionType;
  prevElectionType : ElectionType;
  posteriors : gmap string PosteriorEstimate;
  connected : bool;
  channel : option ElectionType;
  inflight : list ElectionType
}.

(** [load()] up to its [await]: a fetch for the current election type is
    started. *)
Definition load (h : Hook) : Hook :=
  {| electionType := electionType h;
     prevElectionType := prevElectionType h;
     posteriors := posteriors h;
     connected := connected h;
     channel := channel h;
     inflight := inflight h ++ [electionType h] |}.

(** The effect "Clear data and reload when election type changes", run
    after a render with election type [e]; the clean-up of the previous
    run has removed the old channel. *)
Definition run_effect (e : ElectionType) (h : Hook) : Hook :=
  let stale := bool_decide (prevElectionType h ≠ e) in
  load
    {| electionType := e;
       prevElectionType := e;
       posteriors := if stale then ∅ else posteriors h;
       connected := connected h;
       channel := Some e;
       inflight := inflight h |}.

(** First render of [useRealtime(e)]. *)
Definition mount (e : ElectionType) : Hook :=
  run_effect e
    {| electionType := e; prevElectionType := e; posteriors := ∅;
       connected := false; channel := None; inflight := [] |}.

Inductive Event :=
| SetElectionType (e : ElectionType)
    (* the dashboard's toggle, up to and including the effect that the
       re-render schedules; see [render_before_effect] *)
| FetchResolved (i : nat) (table : list PosteriorEstimate)
    (* the [i]-th pending [load] resumes after its [await]; [table] is the
       remote table at the time the query ran *)
| PostgresChanges (chan : ElectionType) (row : PosteriorEstimate)
    (* channel [live-chan] delivers [payload.new = row] *)
| SubscribeStatus (chan : ElectionType) (subscribed : bool)
| PollTick
    (* [setInterval(load, 2000)] of the fallback-polling effect *)
| Refresh.

Definition step (h : Hook) (ev : Event) : Hook :=
  match ev with
  | SetElectionType e =>
      if decide (e = electionType h) then h else run_effect e h
  | FetchResolved i table =>
      match inflight h !! i with
      | Some e =>
          {| electionType := electionType h;
             prevElectionType := prevElectionType h;
             posteriors := new_Map (fetchPosteriors e table);
             connected := connected h;
             channel := channel h;
             inflight := delete i (inflight h) |}
      | None => h
      end
  | PostgresChanges chan row =>
      if decide (channel h = Some chan) then
        {| electionType := electionType h;
           prevElectionType := prevElectionType h;
           posteriors := on_postgres_changes chan row (posteriors h);
           connected := connected h;
           channel := channel h;
           inflight := inflight h |}
      else h
  | SubscribeStatus chan subscribed =>
      if decide (channel h = Some chan) then
        {| electionType := electionType h;
           prevElectionType := prevElectionType h;
           posteriors := posteriors h;
           connected := subscribed;
           channel := channel h;
           inflight := inflight h |}
      else h
  | PollTick => if connected h then h else load h
  | Refresh => load h
  end.

Definition run (h : Hook) (evs : list Event) : Hook := foldl step h evs.

(** The states of [step] are those in which React has run the effects.
    Between [setElectionType(e)] and the effect that clears the store there
    is one render of [useRealtime(e)]; it returns the new election type
    with the store and flag as they were. *)
Definition render_before_effect (e : ElectionType) (h : Hook)
    : ElectionType * gmap string PosteriorEstimate * bool :=
  (e, posteriors h, connected h).

(** What the rendering layer may see: every record in the store belongs to
    the active election type. *)
Definition snapshot_clean (h : Hook) : Prop :=
  ∀ k r, posteriors h !! k = Some r → election_type r = electionType h.

(** After [mount], and whatever happens next, exactly the channel of the
    active election type is open and the ref agrees with the prop. *)
Definition wired (h : Hook) : Prop :=
  channel h = Some (electionType h) ∧ prevElectionType h = electionType h.

(** The store and every pending [load] belong to the active election type. *)
Definition settled (h : Hook) : Prop :=
  wired h ∧ snapshot_clean h ∧ Forall (λ e, e = electionType h) (inflight h).

(** The events that change the active election type. *)
Definition is_switch (h : Hook) (ev : Event) : Prop :=
  match ev with
  | SetElectionType e => e ≠ electionType h
  | _ => False
  end.

Fixpoint no_switch (h : Hook) (evs : list Event) : Prop :=
  match evs with
  | [] => True
  | ev :: evs => ¬ is_switch h ev ∧ no_switch (step h ev) evs
  end.

End UseRealtime.

(** ** JavaScript operators on numbers and arrays *)

Module Js.

(** [a >= b], [a > b], [a < b] on numbers. *)
Definition geq (a b : Q) : bool := Qle_bool b a.
Definition gt (a b : Q) : bool := negb (Qle_bool a b).
Definition lt (a b : Q) : bool := negb (Qle_bool b a).

(** [a !== b] on [number | null]: [null] is identical to [null] only. *)
Definition strict_neq (a b : option Q) : bool :=
  match a, b with
  | None, None => false
  | Some x, Some y => negb (Qeq_bool x y)
  | _, _ => true
  end.

(** [s || fallback] on a [string | undefined]: the empty string is falsy. *)
Definition or_else (s : option string) (fallback : string) : string :=
  match s with
  | Some v => if decide (v = "") then fallback else v
  | None => fallback
  end.

(** [arr.slice(start)]: a negative [start] counts from the end, and the
    resulting index is clamped to the array. *)
Definition slice {A} (start : Z) (arr : list A) : list A :=
  let len := Z.of_nat (length arr) in
  let k := if (start <? 0)%Z then Z.max (len + start) 0 else Z.min start len in
  drop (Z.to_nat k) arr.

End Js.

(** ** components/TurnoutMap *)

Module TurnoutMap.
Import Supabase Js.
Local Open Scope Q_scope.

(** The quotient [(turnout - 0.25) / 0.55] is exact here.  The code's
    doubles can differ from it in the last bit, which decides the band
    only for a turnout within rounding distance of a band boundary (at
    0.305, 0.47 and 0.5525 the double quotient falls just below 0.1, 0.4
    and 0.55); the properties below keep clear of the boundaries. *)
Definition getTurnoutColor (muPrior : Q) (posterior : option PosteriorEstimate)
    (isRecentlyUpdated : bool) : string :=
  if isRecentlyUpdated then "#00FFFF" else
  let hasLiveCalibration := default false (is_visible <$> posterior) in
  let turnout :=
    if hasLiveCalibration then default muPrior (posterior ≫= mu_post)
    else muPrior in
  let normalized := Qmax 0 (Qmin 1 ((turnout - 0.25) / 0.55)) in
  if geq normalized 0.85 then "#00E5FF"
  else if geq normalized 0.7 then "#22D3EE"
  else if geq normalized 0.55 then "#06B6D4"
  else if geq normalized 0.4 then "#0891B2"
  else if geq normalized 0.25 then "#0E7490"
  else if geq normalized 0.1 then "#155E75"
  else "#164E63".

Definition getOpacity (posterior : option PosteriorEstimate)
    (isRecentlyUpdated : bool) : Q :=
  if isRecentlyUpdated then 0.95 else
  let hasLiveCalibration := default false (is_visible <$> posterior) in
  let responses := default 0 (posterior ≫= n_eff) in
  if hasLiveCalibration then Qmin 0.9 (0.6 + responses * 0.025)
  else 0.55.

Definition getGlowIntensity (posterior : option PosteriorEstimate)
    (muPrior : Q) : Q :=
  let hasLiveCalibration := default false (is_visible <$> posterior) in
  let turnout :=
    if hasLiveCalibration then default muPrior (posterior ≫= mu_post)
    else muPrior in
  let boost := if hasLiveCalibration then 0.1 else 0 in
  if geq turnout 0.7 then 0.5 + boost
  else if geq turnout 0.6 then 0.25 + boost
  else 0.

(** The test of the "Track changed precincts" effect, for one entry
    [current] of [posteriors] and [prev = prevPosteriorsRef.current.get(geoId)]:
    [!prev || prev.n_eff !== current.n_eff || prev.mu_post !== current.mu_post]. *)
Definition changed (prev : option PosteriorEstimate)
    (current : PosteriorEstimate) : bool :=
  match prev with
  | None => true
  | Some p =>
      strict_neq (n_eff p) (n_eff current)
      || strict_neq (mu_post p) (mu_post current)
  end.

(** The keys pushed to [changedGeoIds] by that effect. *)
Definition changedGeoIds (prevPosteriors posteriors : gmap string PosteriorEstimate)
    : gset string :=
  dom (filter (λ kv, changed (prevPosteriors !! kv.1) kv.2 = true) posteriors).

(** Two nullable numbers differ: one is [null] and the other is not, or both
    are numbers and these are not equal. *)
Definition differs (a b : option Q) : Prop :=
  match a, b with
  | None, None => False
  | Some x, Some y => ¬ (x == y)
  | _, _ => True
  end.

(** The row [{ ...p, mu_post: v }]. *)
Definition with_mu_post (v : option Q) (p : PosteriorEstimate)
    : PosteriorEstimate :=
  {| geo_id := geo_id p; election_type := election_type p;
     mu_prior := mu_prior p; mu_post := v;
     sigma_prior := sigma_prior p; sigma_post := sigma_post p;
     divergence_z := divergence_z p; delta_mean := delta_mean p;
     n_eff := n_eff p; is_visible := is_visible p;
     updated_at := updated_at p |}.

(** The displayed turnout, as [onEachFeature] computes it for the tooltip
    (the same expression as in the two functions above). *)
Definition displayedTurnout (p : option PosteriorEstimate) (muPrior : Q) : Q :=
  let hasLiveCalibration := default false (is_visible <$> p) in
  if hasLiveCalibration then default muPrior (p ≫= mu_post) else muPrior.

(** [getTurnoutLabel], the tooltip's "Expectation" line. *)
Definition getTurnoutLabel (t : Q) : string :=
  if geq t 0.7 then "High turnout expected"
  else if geq t 0.5 then "Moderate turnout"
  else "Lower turnout expected".

(** The properties of a GeoJSON feature that [style] reads. *)
Record PrecinctProperties := {
  props_geo_id : string;
  props_mu_prior : Q
}.

(** A CSS colour: a hex literal, or the template
    [rgba(0, 255, 255, ${glowIntensity})] with its alpha kept as a number. *)
Inductive Colour :=
| Hex (code : string)
| Rgba_cyan (alpha : Q).

Record PathOptions := {
  fillColor : string;
  fillOpacity : Q;
  color : Colour;
  weight : Q;
  className : string
}.

(** The [style] callback; [None] is the empty object returned for an
    undefined feature. *)
Definition style (posteriors : gmap string PosteriorEstimate)
    (selected : option string) (recentlyUpdated : gset string)
    (feature : option PrecinctProperties) : option PathOptions :=
  match feature with
  | None => None
  | Some props =>
      let geoId := props_geo_id props in
      let p := posteriors !! geoId in
      let muPrior := default (props_mu_prior props) (p ≫= mu_prior) in
      let isSelected := bool_decide (Some geoId = selected) in
      let isRecentlyUpdated := bool_decide (geoId ∈ recentlyUpdated) in
      let glowIntensity := getGlowIntensity p muPrior in
      Some
        {| fillColor := getTurnoutColor muPrior p isRecentlyUpdated;
           fillOpacity := getOpacity p isRecentlyUpdated;
           color :=
             if isSelected then Hex "#00FFFF"
             else if isRecentlyUpdated then Hex "#00FFFF"
             else if gt glowIntensity 0 then Rgba_cyan glowIntensity
             else Hex "#0F172A";
           weight :=
             if isSelected then 2.5
             else if isRecentlyUpdated then 2
             else if gt glowIntensity 0 then 1
             else 0.5;
           className := if isRecentlyUpdated then "precinct-updating" else "" |}
  end.

End TurnoutMap.

(** ** components/SignalLog and components/Dashboard *)

Module Dashboard.
Import Supabase Js.
Local Open Scope Q_scope.

Inductive SignalType := higher | same | lower.
Inductive Impact := small | medium | large.

Record SignalEntry := {
  id : string;
  timestamp : string;
  geoId : string;
  neighborhood : string;
  signalType : SignalType;
  impact : Impact;
  posteriorShift : Q
}.

(** The two score tables of [getSignalType]. *)
Definition turnoutScore (neighborTurnout : NeighborTurnoutLevel) : Q :=
  match neighborTurnout with
  | almost_all => 2 | most => 1 | about_half => 0
  | probably_not => -1 | definitely_not => -2
  end.

Definition directionScore (direction : TurnoutDirection) : Q :=
  match direction with
  | much_higher => 2 | little_higher => 1 | about_same => 0
  | little_lower => -1 | much_lower => -2
  end.

Definition getSignalType (neighborTurnout : NeighborTurnoutLevel)
    (direction : TurnoutDirection) : SignalType :=
  let combined := turnoutScore neighborTurnout + directionScore direction * 0.5 in
  if gt combined 0.5 then higher
  else if lt combined (-0.5) then lower
  else same.

(** The tables behind [posteriorShift], the same in both places.  The
    products and sums that use them are exact here; the code's doubles
    agree in sign and up to rounding in the last bit (0.02 comes out as
    0.020000000000000004). *)
Definition signalScore (neighborTurnout : NeighborTurnoutLevel) : Q :=
  match neighborTurnout with
  | almost_all => 0.15 | most => 0.08 | about_half => 0
  | probably_not => -0.08 | definitely_not => -0.15
  end.

Definition shiftDirectionScore (direction : TurnoutDirection) : Q :=
  match direction with
  | much_higher => 0.1 | little_higher => 0.05 | about_same => 0
  | little_lower => -0.05 | much_lower => -0.1
  end.

(** The entry built per row by [loadActivePoll] (history); [x || 0] on a
    number leaves it as it is. *)
Definition loadedSignal (neighborhoodLookup : gmap string string)
    (sub : PollSubmission) : SignalEntry :=
  {| id := sub_id sub;
     timestamp := created_at sub;
     geoId := sub_geo_id sub;
     neighborhood := or_else (neighborhoodLookup !! sub_geo_id sub) "Unknown";
     signalType := getSignalType (neighbor_turnout sub) (turnout_direction sub);
     impact := medium;
     posteriorShift :=
       (signalScore (neighbor_turnout sub)
        + shiftDirectionScore (turnout_direction sub) * 0.5) * 0.1 |}.

(** [setSignals(loadedSignals.slice(-50))], done only for a non-empty result. *)
Definition loadSignals (neighborhoodLookup : gmap string string)
    (submissions : list PollSubmission) (signals : list SignalEntry)
    : list SignalEntry :=
  match submissions with
  | [] => signals
  | _ => slice (-50) (loadedSignal neighborhoodLookup <$> submissions)
  end.

(** The entry built by the [INSERT] handler of the live subscription;
    [posteriors] is the store the handler closed over. *)
Definition newSignal (neighborhoodLookup : gmap string string)
    (posteriors : gmap string PosteriorEstimate)
    (submission : PollSubmission) : SignalEntry :=
  let geoId := sub_geo_id submission in
  let posterior := posteriors !! geoId in
  let currentZ := Qabs (default 0 (posterior ≫= divergence_z)) in
  {| id := sub_id submission;
     timestamp := created_at submission;
     geoId := geoId;
     neighborhood := or_else (neighborhoodLookup !! geoId) "Unknown";
     signalType :=
       getSignalType (neighbor_turnout submission) (turnout_direction submission);
     impact :=
       if geq currentZ 1.5 then large
       else if geq currentZ 0.75 then medium
       else small;
     posteriorShift :=
       (signalScore (neighbor_turnout submission)
        + shiftDirectionScore (turnout_direction submission) * 0.5) * 0.1 |}.

(** [setSignals(prev => [...prev.slice(-49), newSignal])]. *)
Definition appendSignal {A} (prev : list A) (newSignal : A) : list A :=
  slice (-49) prev ++ [newSignal].

(** The part of the dashboard's state the handler writes: the signal log,
    the [recentlyUpdated] set and the timeouts not yet fired, each with the
    time it is due and the key its callback deletes, in creation order. *)
Record Dash := {
  signals : list SignalEntry;
  recentlyUpdated : gset string;
  timeouts : list (Z * string)
}.

Definition initial : Dash :=
  {| signals := []; recentlyUpdated := ∅; timeouts := [] |}.

(** "Mark precinct as recently updated": add the key, then
    [setTimeout(() => delete geoId, 2000)]; the handle is not kept. *)
Definition mark (now : Z) (geoId : string) (d : Dash) : Dash :=
  {| signals := signals d;
     recentlyUpdated := {[geoId]} ∪ recentlyUpdated d;
     timeouts := timeouts d ++ [((now + 2000)%Z, geoId)] |}.

(** The event loop reaching time [now]: every timeout due by then runs, in
    creation order (all delays are equal), and deletes its key. *)
Definition fire (now : Z) (d : Dash) : Dash :=
  {| signals := signals d;
     recentlyUpdated :=
       foldl (λ s t, if (t.1 <=? now)%Z then s ∖ {[t.2]} else s)
             (recentlyUpdated d) (timeouts d);
     timeouts := filter (λ t, (now < t.1)%Z) (timeouts d) |}.

(** The [INSERT] handler at time [now], on that state: timeouts due by
    then have run before it.  (Its two other calls, the response counter
    and [refresh()], do not touch this record; [refresh] is the [Refresh]
    event of the hook.) *)
Definition onInsert (now : Z) (neighborhoodLookup : gmap string string)
    (posteriors : gmap string PosteriorEstimate)
    (submission : PollSubmission) (d : Dash) : Dash :=
  let d := fire now d in
  mark now (sub_geo_id submission)
    {| signals :=
         appendSignal (signals d)
           (newSignal neighborhoodLookup posteriors submission);
       recentlyUpdated := recentlyUpdated d;
       timeouts := timeouts d |}.

(** [recentlyUpdated.has(geoId)] in a render at time [now]. *)
Definition isHighlighted (now : Z) (geoId : string) (d : Dash) : bool :=
  bool_decide (geoId ∈ recentlyUpdated (fire now d)).

(** [Array.from(posteriors.values())]; the counts below do not depend on
    the order of the values. *)
Definition values (posteriors : gmap string PosteriorEstimate)
    : list PosteriorEstimate :=
  (map_to_list posteriors).*2.

(** The two counters handed to [SystemStatus]. *)
Definition visibleCount (posteriors : gmap string PosteriorEstimate) : nat :=
  length (filter (λ p, is_visible p = true) (values posteriors)).

Definition highDivergenceZones (posteriors : gmap string PosteriorEstimate)
    : nat :=
  length
    (filter (λ p, is_visible p && geq (Qabs (default 0 (divergence_z p))) 1.5
                  = true)
       (values posteriors)).

(** The same key marked at each of [times] in turn, the timeouts due by
    each mark having run before it. *)
Definition marks (geoId : string) (times : list Z) (d : Dash) : Dash :=
  foldl (λ d now, mark now geoId (fire now d)) d times.

(** Every highlighted key still has a timeout that will remove it, and
    every timeout is due by [bound]. *)
Definition expiring (bound : Z) (d : Dash) : Prop :=
  (∀ k, k ∈ recentlyUpdated d → ∃ t, (t, k) ∈ timeouts d)
  ∧ Forall (λ x, (x.1 ≤ bound)%Z) (timeouts d).

End Dashboard.

(** ** hooks/useAnimations *)

Module UseAnimations.
Import Js.
Local Open Scope Q_scope.

(** [Math.round]: the nearest integer, a tie going up. *)
Definition Math_round (x : Q) : Z := Qfloor (x + (1 # 2)).

(** One run of the frame callback [animate] of [useAnimatedNumber], at
    [elapsed = currentTime - startTime.current]: the value it displays, and
    whether it requests another frame.  The value is rounded from an exact
    rational; at a frame where that lies within rounding distance of a
    half, the code's double may round to the neighbouring integer. *)
Definition animate (startValue value duration elapsed : Q) : Z * bool :=
  let progress := Qmin (elapsed / duration) 1 in
  let easeOut := 1 - (1 - progress) ^ 3 in
  let current := Math_round (startValue + (value - startValue) * easeOut) in
  (current, lt progress 1).

End UseAnimations.

(** ** Concrete rows used by the examples *)

Module Fixtures.
Import Supabase.

Definition row (k : string) (e : ElectionType) (post : option Q)
    (z : option Q) (n : option Q) (visible : bool) : PosteriorEstimate :=
  {| geo_id := k; election_type := e;
     mu_prior := Some 0.6%Q; mu_post := post;
     sigma_prior := None; sigma_post := None;
     divergence_z := z; delta_mean := None;
     n_eff := n; is_visible := visible;
     updated_at := "2026-01-05T10:00:00Z" |}.

Definition pct1101_presidential : PosteriorEstimate :=
  row "PCT_1101" presidential (Some 0.79%Q) (Some 2%Q) (Some 6%Q) true.

Definition pct1101_midterm : PosteriorEstimate :=
  row "PCT_1101" midterm (Some 0.62%Q) None (Some 8%Q) true.

Definition pct7002_midterm : PosteriorEstimate :=
  row "PCT_7002" midterm None None (Some 0%Q) false.

Definition remote_table : list PosteriorEstimate :=
  [pct1101_presidential; pct1101_midterm; pct7002_midterm].

Definition submission (k : string) : PollSubmission :=
  {| sub_id := "s-" +:+ k; created_at := "2026-01-05T10:00:01Z";
     sub_geo_id := k; neighbor_turnout := almost_all;
     turnout_direction := much_higher |}.

End Fixtures.

(** * Properties *)

Import Supabase.

(** ** The entity store *)

Section EntityStore.
Import UseRealtime.

Lemma merge_all_snoc rows row (s : gmap string PosteriorEstimate) :
  merge_all (rows ++ [row]) s = merge row (merge_all rows s).
Proof. unfold merge_all. by rewrite foldl_app. Qed.

(** From any starting store: a key keeps its old entry until a row with
    that key is merged, and then holds the last such row. *)
Lemma merge_all_lookup rows (s : gmap string PosteriorEstimate) k :
  merge_all rows s !! k
  = match last (filter (λ r, geo_id r = k) rows) with
    | Some r => Some r
    | None => s !! k
    end.
Proof.
  induction rows as [|row rows IH] using rev_ind; [done|].
  rewrite merge_all_snoc, filter_app. unfold merge.
  destruct (decide (geo_id row = k)) as [Hk|Hk].
  - rewrite (filter_cons_True _ row []) by done.
    rewrite filter_nil, last_snoc, Hk. apply lookup_insert_eq.
  - rewrite (filter_cons_False _ row []) by done.
    rewrite filter_nil, app_nil_r, lookup_insert_ne by done. apply IH.
Qed.

(** C2: after any finite sequence of merges into the empty store, each key
    holds the last row merged under it (in call order), and a key no row
    was merged under is absent. *)
Theorem merge_last_write_wins (rows : list PosteriorEstimate) (k : string) :
  merge_all rows ∅ !! k = last (filter (λ r, geo_id r = k) rows).
Proof.
  rewrite merge_all_lookup, lookup_empty.
  by destruct (last _).
Qed.

Lemma new_Map_merge_all data : new_Map data = merge_all data ∅.
Proof. done. Qed.

Lemma new_Map_partition e table k r :
  new_Map (fetchPosteriors e table) !! k = Some r → election_type r = e.
Proof.
  rewrite new_Map_merge_all, merge_all_lookup, lookup_empty.
  destruct (last _) as [r'|] eqn:Hl; [|done]. intros [= ->].
  apply last_Some_elem_of in Hl.
  apply list_elem_of_filter in Hl as [_ Hl].
  unfold fetchPosteriors in Hl.
  by apply list_elem_of_filter in Hl as [? _].
Qed.

End EntityStore.

(** ** The hook as a state machine *)

Section Realtime.
Import UseRealtime.

Lemma wired_mount e : wired (mount e).
Proof. done. Qed.

Lemma wired_step h ev : wired h → wired (step h ev).
Proof.
  intros [Hc Hp]. destruct ev as [e|i table|chan row|chan b| |]; simpl.
  - by case_decide.
  - by destruct (inflight h !! i).
  - by case_decide.
  - by case_decide.
  - by destruct (connected h).
  - done.
Qed.

Lemma wired_run h evs : wired h → wired (run h evs).
Proof.
  revert h. induction evs as [|ev evs IH]; intros h Hh; [done|].
  apply IH. by apply wired_step.
Qed.

Lemma run_snoc h evs ev : run h (evs ++ [ev]) = step (run h evs) ev.
Proof. unfold run. by rewrite foldl_app. Qed.

(** C3: in any state the hook can reach, a push event whose row carries
    another election type than the active one leaves the state (hence the
    store) as it was, whichever channel delivered it, and nothing else
    happens; a row of the active election type, delivered by the open
    channel, is stored under its [geo_id]. *)
Theorem push_partition_filter (e0 : ElectionType) (evs : list Event)
    (chan : ElectionType) (row : PosteriorEstimate) :
  let h := run (mount e0) evs in
  (election_type row ≠ electionType h →
     step h (PostgresChanges chan row) = h)
  ∧ (election_type row = electionType h →
     posteriors (step h (PostgresChanges (electionType h) row))
     = <[geo_id row := row]> (posteriors h)).
Proof.
  intros h.
  destruct (wired_run (mount e0) evs (wired_mount e0)) as [Hc _].
  fold h in Hc. split; intros Hrow; simpl.
  - case_decide as Hch; [|done].
    rewrite Hc in Hch. injection Hch as <-.
    unfold on_postgres_changes. rewrite decide_False by done.
    by destruct h.
  - rewrite decide_True by done. simpl.
    unfold on_postgres_changes. by rewrite decide_True.
Qed.

Lemma push_partition_filter_witness :
  step (run (mount midterm) [FetchResolved 0 Fixtures.remote_table])
       (PostgresChanges midterm Fixtures.pct1101_presidential)
  = run (mount midterm) [FetchResolved 0 Fixtures.remote_table]
  ∧ posteriors
      (step (run (mount midterm) [FetchResolved 0 Fixtures.remote_table])
            (PostgresChanges midterm Fixtures.pct7002_midterm))
      !! "PCT_7002" = Some Fixtures.pct7002_midterm.
Proof.
  destruct (push_partition_filter midterm
              [FetchResolved 0 Fixtures.remote_table] midterm
              Fixtures.pct1101_presidential) as [Hdrop _].
  destruct (push_partition_filter midterm
              [FetchResolved 0 Fixtures.remote_table] midterm
              Fixtures.pct7002_midterm) as [_ Hkeep].
  split.
  - apply Hdrop. discriminate.
  - change (electionType (run (mount midterm)
              [FetchResolved 0 Fixtures.remote_table])) with midterm in Hkeep.
    rewrite Hkeep by reflexivity. apply lookup_insert_eq.
Defined.

Lemma settled_mount e : settled (mount e).
Proof.
  split; [done|]. split.
  - intros k r. simpl. destruct (bool_decide _); by rewrite lookup_empty.
  - simpl. by repeat constructor.
Qed.

Lemma settled_step h ev : settled h → ¬ is_switch h ev → settled (step h ev).
Proof.
  intros (Hw & Hclean & Hin) Hns.
  split; [by apply wired_step|].
  destruct Hw as [Hc Hp].
  destruct ev as [e|i table|chan row|chan b| |]; simpl in *.
  - rewrite decide_True; [done|]. by destruct (decide (e = electionType h)).
  - destruct (inflight h !! i) as [e|] eqn:Hi; [|done]. simpl. split.
    + intros k r Hk. apply new_Map_partition in Hk as ->.
      eapply (Forall_lookup_1 _ _ _ _ Hin Hi).
    + by apply Forall_delete.
  - case_decide as Hch; [|done]. simpl. split; [|done].
    rewrite Hc in Hch. injection Hch as <-.
    intros k r. unfold on_postgres_changes, merge.
    case_decide as Hrow; simpl; [|apply Hclean].
    destruct (decide (geo_id row = k)) as [<-|Hk].
    + rewrite lookup_insert_eq. by intros [= <-].
    + rewrite lookup_insert_ne by done. apply Hclean.
  - by case_decide.
  - destruct (connected h); [done|]. simpl. split; [done|].
    apply Forall_app. split; [done|]. by repeat constructor.
  - split; [done|]. apply Forall_app. split; [done|]. by repeat constructor.
Qed.

(** A switch made while no [load] is pending leaves nothing of the old
    election type behind. *)
Lemma settled_switch h e :
  wired h → inflight h = [] → e ≠ electionType h →
  settled (step h (SetElectionType e)).
Proof.
  intros [Hc Hp] Hin He. simpl. rewrite decide_False by done.
  split; [done|]. split.
  - intros k r. simpl. rewrite bool_decide_true by congruence.
    by rewrite lookup_empty.
  - simpl. rewrite Hin. by repeat constructor.
Qed.

Lemma settled_run h evs : settled h → no_switch h evs → settled (run h evs).
Proof.
  revert h. induction evs as [|ev evs IH]; intros h Hh Hns; [done|].
  destruct Hns as [Hev Hns]. apply IH; [|done]. by apply settled_step.
Qed.

(** What the code does guarantee about a switch: when no fetch is pending
    at that moment, then from the moment the switch's effect has run (it
    clears the store) every snapshot, until the next switch, holds rows of
    the new election type only.  The one render between the state change
    and that effect is [render_before_effect]; it is not among these
    snapshots and still shows the old rows. *)
Lemma clean_after_quiet_switch h e evs :
  wired h → inflight h = [] → e ≠ electionType h →
  no_switch (step h (SetElectionType e)) evs →
  snapshot_clean (run h (SetElectionType e :: evs)).
Proof.
  intros Hw Hin He Hns.
  by apply (settled_run (step h (SetElectionType e)) evs
              (settled_switch h e Hw Hin He) Hns).
Qed.

(** C1, the failing run: the hook is mounted for [presidential] and its
    first [load] is still waiting; the user switches to [midterm]; the old
    fetch then resolves.  The store of the [midterm] view now holds a
    [presidential] row. *)
Theorem stale_load_after_switch :
  let h := run (mount presidential)
             [SetElectionType midterm; FetchResolved 0 Fixtures.remote_table] in
  electionType h = midterm
  ∧ posteriors h !! "PCT_1101" = Some Fixtures.pct1101_presidential
  ∧ election_type Fixtures.pct1101_presidential = presidential
  ∧ ¬ snapshot_clean h.
Proof.
  intros h.
  assert (Hrow : posteriors h !! "PCT_1101" = Some Fixtures.pct1101_presidential)
    by (vm_compute; reflexivity).
  split; [reflexivity|]. split; [exact Hrow|]. split; [reflexivity|].
  intros Hclean. specialize (Hclean _ _ Hrow). discriminate Hclean.
Qed.

End Realtime.

(** ** The derived-state functions of the map *)

Section ChangeClassifier.
Import Js TurnoutMap.
Local Open Scope Q_scope.

Lemma strict_neq_differs a b : strict_neq a b = true ↔ differs a b.
Proof.
  destruct a as [x|], b as [y|]; simpl; try done.
  rewrite negb_true_iff. split.
  - apply Qeq_bool_neq.
  - intros Hne. destruct (Qeq_bool x y) eqn:E; [|done].
    by apply Qeq_bool_iff in E.
Qed.

(** C4: the change verdict is true exactly when there is no previous row,
    or [n_eff] or [mu_post] differs from the previous row's; when both
    fields are the same the verdict is false. *)
Theorem change_verdict (prev : option PosteriorEstimate)
    (current : PosteriorEstimate) :
  (changed prev current = true ↔
     prev = None
     ∨ ∃ p, prev = Some p
          ∧ (differs (n_eff p) (n_eff current)
             ∨ differs (mu_post p) (mu_post current)))
  ∧ (∀ p, prev = Some p →
       ¬ differs (n_eff p) (n_eff current) →
       ¬ differs (mu_post p) (mu_post current) →
       changed prev current = false).
Proof.
  split.
  - destruct prev as [p|]; simpl.
    + rewrite orb_true_iff, !strict_neq_differs. split.
      * intros H. right. by exists p.
      * intros [|(p' & [= <-] & H)]; done.
    + split; [by left|done].
  - intros p -> Hn Hm. simpl.
    apply orb_false_iff. split; apply not_true_is_false;
      by rewrite strict_neq_differs.
Qed.

Lemma change_verdict_witness :
  changed (Some Fixtures.pct1101_midterm)
          (with_mu_post (Some (31 # 50)) Fixtures.pct1101_midterm) = false.
Proof.
  apply (proj2 (change_verdict (Some Fixtures.pct1101_midterm)
                  (with_mu_post (Some (31 # 50)) Fixtures.pct1101_midterm))
               Fixtures.pct1101_midterm).
  - reflexivity.
  - simpl. intros H. apply H. reflexivity.
  - simpl. intros H. apply H. reflexivity.
Defined.

(** C5: without a highlight, a row that is not visible (or no row at all)
    gets the base opacity 0.55; among visible rows the opacity does not
    decrease when [n_eff] grows, and it is at most 0.9; with a highlight the
    opacity is 0.95 whatever the row. *)
Theorem opacity_spec :
  (∀ posterior,
     default false (is_visible <$> posterior) = false →
     getOpacity posterior false = 0.55)
  ∧ (∀ p1 p2,
     is_visible p1 = true → is_visible p2 = true →
     default 0 (n_eff p1) <= default 0 (n_eff p2) →
     getOpacity (Some p1) false <= getOpacity (Some p2) false)
  ∧ (∀ p, is_visible p = true → getOpacity (Some p) false <= 0.9)
  ∧ (∀ posterior, getOpacity posterior true = 0.95).
Proof.
  repeat apply conj.
  - intros posterior Hv. unfold getOpacity. by rewrite Hv.
  - intros p1 p2 H1 H2 Hle. unfold getOpacity. simpl. rewrite H1, H2.
    apply Q.min_le_compat_l. apply Qplus_le_r.
    apply Qmult_le_compat_r; [exact Hle|discriminate].
  - intros p Hp. unfold getOpacity. simpl. rewrite Hp. apply Q.le_min_l.
  - done.
Qed.

Lemma opacity_spec_witness :
  getOpacity (Some Fixtures.pct7002_midterm) false = 0.55
  ∧ getOpacity (Some Fixtures.pct1101_presidential) false
    <= getOpacity (Some Fixtures.pct1101_midterm) false
  ∧ getOpacity (Some Fixtures.pct1101_midterm) false <= 0.9.
Proof.
  destruct opacity_spec as (Hbase & Hmono & Hcap & _).
  split; [|split].
  - apply Hbase. reflexivity.
  - apply Hmono; [reflexivity|reflexivity|]. simpl. discriminate.
  - apply Hcap. reflexivity.
Defined.

Lemma geq_true a b : geq a b = true ↔ b <= a.
Proof. unfold geq. apply Qle_bool_iff. Qed.

Lemma geq_false a b : geq a b = false ↔ a < b.
Proof.
  rewrite <- not_true_iff_false, geq_true. split.
  - apply Qnot_le_lt.
  - apply Qlt_not_le.
Qed.

Lemma gt_true a b : gt a b = true ↔ b < a.
Proof.
  unfold gt. rewrite negb_true_iff, <- not_true_iff_false, Qle_bool_iff.
  split; [apply Qnot_le_lt|apply Qlt_not_le].
Qed.

(** A band threshold on the clamped, normalised turnout is a threshold on
    the turnout itself. *)
Lemma normalized_geq (c t : Q) :
  0 < c → c <= 1 →
  geq (Qmax 0 (Qmin 1 ((t - 0.25) / 0.55))) c = true ↔ 0.25 + 0.55 * c <= t.
Proof.
  intros Hc0 Hc1. rewrite geq_true, Q.max_le_iff, Q.min_glb_iff.
  assert (Ht : t == 0.25 + 0.55 * ((t - 0.25) / 0.55)) by (field; discriminate).
  set (x := (t - 0.25) / 0.55) in *.
  split.
  - intros [H|[_ H]]; lra.
  - intros H. right. split; lra.
Qed.

Lemma colour_of_displayed muPrior p :
  getTurnoutColor muPrior p false
  = getTurnoutColor (displayedTurnout p muPrior) None false.
Proof. unfold getTurnoutColor, displayedTurnout. by destruct p as [[]|]. Qed.

(** In exact arithmetic the seven shades change at turnouts 0.305, 0.3875,
    0.47, 0.5525, 0.635 and 0.7175. *)
Lemma colour_thresholds_exact (t : Q) :
  let c := getTurnoutColor t None false in
  (c = "#00E5FF" ↔ 0.7175 <= t)
  ∧ (c = "#22D3EE" ↔ 0.635 <= t ∧ t < 0.7175)
  ∧ (c = "#06B6D4" ↔ 0.5525 <= t ∧ t < 0.635)
  ∧ (c = "#0891B2" ↔ 0.47 <= t ∧ t < 0.5525)
  ∧ (c = "#0E7490" ↔ 0.3875 <= t ∧ t < 0.47)
  ∧ (c = "#155E75" ↔ 0.305 <= t ∧ t < 0.3875)
  ∧ (c = "#164E63" ↔ t < 0.305)
  ∧ c ≠ "#00FFFF".
Proof.
  intros c. unfold c.
  unfold getTurnoutColor. simpl.
  set (nz := Qmax 0 (Qmin 1 ((t - 0.25) / 0.55))).
  pose proof (normalized_geq 0.85 t eq_refl ltac:(discriminate)) as H1.
  pose proof (normalized_geq 0.7 t eq_refl ltac:(discriminate)) as H2.
  pose proof (normalized_geq 0.55 t eq_refl ltac:(discriminate)) as H3.
  pose proof (normalized_geq 0.4 t eq_refl ltac:(discriminate)) as H4.
  pose proof (normalized_geq 0.25 t eq_refl ltac:(discriminate)) as H5.
  pose proof (normalized_geq 0.1 t eq_refl ltac:(discriminate)) as H6.
  fold nz in H1, H2, H3, H4, H5, H6.
  destruct (geq nz 0.85);
    [|destruct (geq nz 0.7);
      [|destruct (geq nz 0.55);
        [|destruct (geq nz 0.4);
          [|destruct (geq nz 0.25); [|destruct (geq nz 0.1)]]]]];
    repeat match goal with
           | H : true = true ↔ _ |- _ => apply proj1 in H; specialize (H eq_refl)
           | H : false = true ↔ _ |- _ =>
               apply proj2 in H;
               assert (¬ _) by (intros ?; discriminate H; assumption);
               clear H
           end;
    repeat split; intros; try discriminate; try done; lra.
Qed.


(** Clear of the band boundaries, where rounding cannot matter: the shade
    for each range of the displayed turnout. *)
Lemma colour_interior (t : Q) :
  let c := getTurnoutColor t None false in
  (0.72 <= t → c = "#00E5FF")
  ∧ (0.64 <= t → t <= 0.71 → c = "#22D3EE")
  ∧ (0.56 <= t → t <= 0.63 → c = "#06B6D4")
  ∧ (0.48 <= t → t <= 0.55 → c = "#0891B2")
  ∧ (0.39 <= t → t <= 0.46 → c = "#0E7490")
  ∧ (0.31 <= t → t <= 0.38 → c = "#155E75")
  ∧ (t <= 0.30 → c = "#164E63").
Proof.
  intros c.
  destruct (colour_thresholds_exact t) as (H1 & H2 & H3 & H4 & H5 & H6 & H7 & _).
  fold c in H1, H2, H3, H4, H5, H6, H7.
  repeat split; intros.
  - apply H1. lra.
  - apply H2. split; lra.
  - apply H3. split; lra.
  - apply H4. split; lra.
  - apply H5. split; lra.
  - apply H6. split; lra.
  - apply H7. lra.
Qed.

(** C10: for a visible row whose [mu_post] is null, colour and glow are
    those of the prior mean: the colour is the one of the bare prior, both
    are what a posterior equal to the prior would give, and the glow keeps
    the boost of a visible row (so it is positive from 0.6 on, not the zero
    that a displayed mean of zero would give).  The colour is the shade of
    the prior's band, from the brightest for a prior of 0.72 or more down
    to the darkest (the shade of a zero mean) only for a prior of 0.30 or
    less. *)
Theorem prior_fallback (p : PosteriorEstimate) (muPrior : Q) :
  is_visible p = true → mu_post p = None →
  getTurnoutColor muPrior (Some p) false = getTurnoutColor muPrior None false
  ∧ getTurnoutColor muPrior (Some p) false
    = getTurnoutColor muPrior (Some (with_mu_post (Some muPrior) p)) false
  ∧ getGlowIntensity (Some p) muPrior
    = getGlowIntensity (Some (with_mu_post (Some muPrior) p)) muPrior
  ∧ (0.7 <= muPrior → getGlowIntensity (Some p) muPrior == 0.6)
  ∧ (0.6 <= muPrior → muPrior < 0.7 →
       getGlowIntensity (Some p) muPrior == 0.35)
  ∧ (muPrior < 0.6 → getGlowIntensity (Some p) muPrior = 0)
  ∧ (0.72 <= muPrior → getTurnoutColor muPrior (Some p) false = "#00E5FF")
  ∧ (0.64 <= muPrior → muPrior <= 0.71 →
       getTurnoutColor muPrior (Some p) false = "#22D3EE")
  ∧ (0.56 <= muPrior → muPrior <= 0.63 →
       getTurnoutColor muPrior (Some p) false = "#06B6D4")
  ∧ (0.48 <= muPrior → muPrior <= 0.55 →
       getTurnoutColor muPrior (Some p) false = "#0891B2")
  ∧ (0.39 <= muPrior → muPrior <= 0.46 →
       getTurnoutColor muPrior (Some p) false = "#0E7490")
  ∧ (0.31 <= muPrior → muPrior <= 0.38 →
       getTurnoutColor muPrior (Some p) false = "#155E75")
  ∧ (muPrior <= 0.30 → getTurnoutColor muPrior (Some p) false = "#164E63").
Proof.
  intros Hv Hpost.
  assert (Hcol : getTurnoutColor muPrior (Some p) false
                 = getTurnoutColor muPrior None false).
  { unfold getTurnoutColor. simpl. by rewrite Hv, Hpost. }
  split; [exact Hcol|].
  split; [unfold getTurnoutColor; simpl; by rewrite Hv, Hpost|].
  rewrite Hcol.
  split; [|split; [|split; [|split; [|apply colour_interior]]]];
    unfold getGlowIntensity, geq; simpl; rewrite Hv, Hpost; simpl.
  - done.
  - intros H. apply Qle_bool_iff in H. by rewrite H.
  - intros H6 H7. apply Qle_bool_iff in H6. rewrite H6.
    destruct (Qle_bool 0.7 muPrior) eqn:E; [|done].
    apply Qle_bool_iff in E. by apply Qle_not_lt in E.
  - intros H6.
    assert (Qle_bool 0.6 muPrior = false) as E6.
    { apply not_true_is_false. rewrite Qle_bool_iff. by apply Qlt_not_le. }
    assert (Qle_bool 0.7 muPrior = false) as E7.
    { apply not_true_is_false. rewrite Qle_bool_iff. intros H.
      apply (Qlt_not_le _ _ H6). eapply Qle_trans; [|exact H]. discriminate. }
    by rewrite E6, E7.
Qed.

Lemma prior_fallback_witness :
  getTurnoutColor 0.72
    (Some (with_mu_post None Fixtures.pct1101_midterm)) false
  = getTurnoutColor 0.72 None false
  ∧ getGlowIntensity (Some (with_mu_post None Fixtures.pct1101_midterm)) 0.72
    == 0.6
  ∧ getTurnoutColor 0.72
      (Some (with_mu_post None Fixtures.pct1101_midterm)) false
    = "#00E5FF".
Proof.
  destruct (prior_fallback (with_mu_post None Fixtures.pct1101_midterm) 0.72)
    as (Hc & _ & _ & Hg & _ & _ & Hb & _); [reflexivity|reflexivity|].
  split; [exact Hc|]. split; [apply Hg; discriminate|].
  apply Hb. discriminate.
Defined.

End ChangeClassifier.

(** ** Signal classification *)

Section SignalClassifier.
Import Js Dashboard.
Local Open Scope Q_scope.

(** C6: the direction is decided by the sum of the primary score with
    weight 1 and the secondary score with weight 0.5, both read off a
    5-point scale centred at 0: [higher] above 0.5, [lower] below -0.5 and
    [same] in between, for every pair; so the two extreme pairs and the
    neutral pair classify as the spec's scenario says. *)
Theorem signal_type_spec :
  (∀ n d,
     let s := 1 * turnoutScore n + 0.5 * directionScore d in
     (getSignalType n d = higher ↔ 0.5 < s)
     ∧ (getSignalType n d = lower ↔ s < -0.5)
     ∧ (getSignalType n d = same ↔ -0.5 <= s ∧ s <= 0.5))
  ∧ turnoutScore <$> [almost_all; most; about_half; probably_not; definitely_not]
    = [2; 1; 0; -1; -2]
  ∧ directionScore
      <$> [much_higher; little_higher; about_same; little_lower; much_lower]
    = [2; 1; 0; -1; -2]
  ∧ getSignalType almost_all much_higher = higher
  ∧ getSignalType definitely_not much_lower = lower
  ∧ getSignalType about_half about_same = same.
Proof.
  split; [|by repeat split].
  intros n d; destruct n, d; vm_compute; intuition congruence.
Qed.

(** The divergence the live handler looks at for a submission. *)
Lemma newSignal_impact lookup
    (posteriors : gmap string PosteriorEstimate) sub :
  impact (newSignal lookup posteriors sub)
  = let currentZ :=
      Qabs (default 0 (posteriors !! sub_geo_id sub ≫= divergence_z)) in
    if geq currentZ 1.5 then large
    else if geq currentZ 0.75 then medium else small.
Proof. done. Qed.

(** C7, as the code has it: a signal built by the live handler takes its
    impact from the target's current divergence ([large] from 1.5,
    [medium] from 0.75, else [small], a missing row or a null z counting
    as 0); a signal loaded from history always has impact [medium]. *)
Theorem impact_by_origin (lookup : gmap string string)
    (posteriors : gmap string PosteriorEstimate) (sub : PollSubmission) :
  let z := Qabs (default 0 (posteriors !! sub_geo_id sub ≫= divergence_z)) in
  (1.5 <= z → impact (newSignal lookup posteriors sub) = large)
  ∧ (0.75 <= z → z < 1.5 → impact (newSignal lookup posteriors sub) = medium)
  ∧ (z < 0.75 → impact (newSignal lookup posteriors sub) = small)
  ∧ impact (loadedSignal lookup sub) = medium.
Proof.
  intros z. rewrite newSignal_impact. fold z. simpl. unfold geq.
  split; [|split; [|split]].
  - intros H. apply Qle_bool_iff in H. by rewrite H.
  - intros Hm Hl. apply Qle_bool_iff in Hm. rewrite Hm.
    destruct (Qle_bool 1.5 z) eqn:E; [|done].
    apply Qle_bool_iff in E. by apply Qle_not_lt in E.
  - intros Hs.
    assert (Qle_bool 0.75 z = false) as E1.
    { apply not_true_is_false. rewrite Qle_bool_iff. by apply Qlt_not_le. }
    assert (Qle_bool 1.5 z = false) as E2.
    { apply not_true_is_false. rewrite Qle_bool_iff. intros H.
      apply (Qlt_not_le _ _ Hs). eapply Qle_trans; [|exact H]. discriminate. }
    by rewrite E1, E2.
  - done.
Qed.

Lemma impact_by_origin_witness :
  impact (newSignal ∅ {[ "PCT_1101" := Fixtures.pct1101_presidential ]}
            (Fixtures.submission "PCT_1101")) = large
  ∧ impact (newSignal ∅ {[ "PCT_1101" := Fixtures.pct1101_presidential ]}
              (Fixtures.submission "PCT_7002")) = small
  ∧ impact (loadedSignal ∅ (Fixtures.submission "PCT_1101")) = medium.
Proof.
  destruct (impact_by_origin ∅ {[ "PCT_1101" := Fixtures.pct1101_presidential ]}
              (Fixtures.submission "PCT_1101")) as (Hl & _ & _ & Hh).
  destruct (impact_by_origin ∅ {[ "PCT_1101" := Fixtures.pct1101_presidential ]}
              (Fixtures.submission "PCT_7002")) as (_ & _ & Hs & _).
  split; [|split].
  - apply Hl. vm_compute. discriminate.
  - apply Hs. vm_compute. reflexivity.
  - exact Hh.
Defined.

(** C7 fails as stated: precinct PCT_1101 has |z| = 2, yet the signal
    loaded from history for it is not [large]. *)
Lemma loaded_signal_ignores_divergence :
  ¬ (∀ (lookup : gmap string string)
       (posteriors : gmap string PosteriorEstimate) (sub : PollSubmission),
       1.5 <= Qabs (default 0 (posteriors !! sub_geo_id sub ≫= divergence_z)) →
       impact (loadedSignal lookup sub) = large).
Proof.
  intros H.
  specialize (H ∅ {[ "PCT_1101" := Fixtures.pct1101_presidential ]}
                (Fixtures.submission "PCT_1101")).
  assert (impact (loadedSignal ∅ (Fixtures.submission "PCT_1101")) = large)
    as Hbad; [|discriminate Hbad].
  apply H. vm_compute. discriminate.
Qed.

End SignalClassifier.

(** ** The signal log *)

Section EventLog.
Import Js Dashboard.
Local Open Scope list_scope.
Context {A : Type}.
Implicit Types (l prev : list A).

(** [slice(-k)] keeps the last [k] elements. *)
Lemma slice_neg (k : nat) l :
  (0 < k)%nat → slice (- Z.of_nat k) l = drop (length l - k) l.
Proof.
  intros Hk. unfold slice.
  destruct (Z.ltb_spec (- Z.of_nat k) 0) as [_|]; [|lia].
  f_equal. lia.
Qed.

Lemma appendSignal_drop prev (x : A) :
  appendSignal prev x = drop (length prev - 49) prev ++ [x].
Proof. unfold appendSignal. by rewrite (slice_neg 49) by lia. Qed.

Lemma appendSignal_length prev (x : A) :
  length (appendSignal prev x) = S (Nat.min (length prev) 49).
Proof.
  rewrite appendSignal_drop, length_app, length_drop. simpl. lia.
Qed.

(** Appending to a log within capacity keeps it within capacity. *)
Lemma appendSignal_bounded prev (x : A) :
  (length (appendSignal prev x) ≤ 50)%nat.
Proof. rewrite appendSignal_length. lia. Qed.

(** The log after a run of appends from the empty log. *)
Lemma appends_drop l :
  foldl appendSignal [] l = drop (length l - 50) l.
Proof.
  induction l as [|x l IH] using rev_ind; [done|].
  rewrite foldl_app. simpl. rewrite IH, appendSignal_drop.
  rewrite length_drop, drop_drop, length_app. simpl.
  rewrite drop_app_le by lia. do 2 f_equal. lia.
Qed.

(** C8: the log never holds more than 50 signals, and after [50 + n]
    appends it holds exactly the last 50 of them, oldest first: the first
    [n] have been dropped from the head. *)
Theorem signal_log_ring l :
  (length (foldl appendSignal [] l) ≤ 50)%nat
  ∧ (∀ n : nat,
       length l = (50 + n)%nat →
       foldl appendSignal [] l = drop n l
       ∧ length (foldl appendSignal [] l) = 50%nat).
Proof.
  rewrite appends_drop, length_drop. split; [lia|].
  intros n Hlen. split; [f_equal; lia|lia].
Qed.

(** The history load leaves at most 50 signals too, the last ones. *)
Lemma slice_50_bounded l : (length (slice (-50) l) ≤ 50)%nat.
Proof. rewrite (slice_neg 50) by lia. rewrite length_drop. lia. Qed.

End EventLog.

Lemma signal_log_ring_witness :
  foldl Dashboard.appendSignal [] (seq 0 52) = seq 2 50
  ∧ length (foldl Dashboard.appendSignal [] (seq 0 52)) = 50%nat.
Proof.
  apply (proj2 (signal_log_ring (seq 0 52)) 2%nat). reflexivity.
Defined.

Lemma onInsert_signals now lookup
    (posteriors : gmap string PosteriorEstimate) sub d :
  Dashboard.signals (Dashboard.onInsert now lookup posteriors sub d)
  = Dashboard.appendSignal (Dashboard.signals d)
      (Dashboard.newSignal lookup posteriors sub).
Proof. done. Qed.

Lemma loadSignals_bounded lookup subs signals :
  (length signals ≤ 50)%nat →
  (length (Dashboard.loadSignals lookup subs signals) ≤ 50)%nat.
Proof.
  intros Hlen. destruct subs as [|sub subs]; [done|].
  apply slice_50_bounded.
Qed.

(** ** The highlight set *)

Section Highlight.
Import Dashboard.
Local Open Scope Z_scope.

(** A key survives the due timeouts when it was present and none of them
    is for that key. *)
Lemma elem_of_fire_set (now : Z) (k : string) (ts : list (Z * string))
    (s : gset string) :
  k ∈ foldl (λ s t, if t.1 <=? now then s ∖ {[t.2]} else s) s ts
  ↔ k ∈ s ∧ Forall (λ t, ¬ (t.1 ≤ now ∧ t.2 = k)) ts.
Proof.
  revert s. induction ts as [|t ts IH]; intros s; simpl.
  - split; [intros H; split; [done|constructor]|by intros [H _]].
  - rewrite IH, Forall_cons.
    destruct (Z.leb_spec (t.1) now) as [Hd|Hd].
    + rewrite elem_of_difference, elem_of_singleton. split.
      * intros [[Hk Hne] Hts]. split; [done|]. split; [|done].
        intros [_ Heq]. by apply Hne.
      * intros [Hk [Hne Hts]]. split; [|done]. split; [done|].
        intros Heq. apply Hne. by split.
    + split.
      * intros [Hk Hts]. split; [done|]. split; [|done]. intros [? _]. lia.
      * by intros [Hk [_ Hts]].
Qed.

Lemma isHighlighted_spec now k d :
  isHighlighted now k d = true
  ↔ k ∈ recentlyUpdated d
    ∧ Forall (λ t, ¬ (t.1 ≤ now ∧ t.2 = k)) (timeouts d).
Proof.
  unfold isHighlighted. rewrite bool_decide_eq_true. simpl.
  apply elem_of_fire_set.
Qed.

(** The handler's effect on the highlight state is [fire] then [mark]. *)
Lemma onInsert_highlight now lookup posteriors sub d :
  recentlyUpdated (onInsert now lookup posteriors sub d)
  = recentlyUpdated (mark now (sub_geo_id sub) (fire now d))
  ∧ timeouts (onInsert now lookup posteriors sub d)
  = timeouts (mark now (sub_geo_id sub) (fire now d)).
Proof. done. Qed.

(** After any run of marks of one key at non-decreasing times, the key is
    in the set, and the timeouts pending for it are exactly those of the
    marks that are not yet due: one per mark, none cancelled. *)
Lemma marks_pending (d : Dash) (k : string) (times : list Z) (tn : Z) :
  Forall (λ x, x.2 ≠ k) (timeouts d) →
  StronglySorted Z.le times → last times = Some tn →
  k ∈ recentlyUpdated (marks k times d)
  ∧ (∀ due, (due, k) ∈ timeouts (marks k times d)
            ↔ ∃ ti, ti ∈ times ∧ due = ti + 2000 ∧ tn < due).
Proof.
  intros Hfree. revert tn.
  induction times as [|t' l IH] using rev_ind; intros tn Hs Hlast; [done|].
  rewrite last_snoc in Hlast. injection Hlast as <-.
  unfold marks. rewrite foldl_app. simpl. fold (marks k l d).
  split; [apply elem_of_union; left; by apply elem_of_singleton|].
  intros due.
  rewrite elem_of_app, list_elem_of_filter, list_elem_of_singleton. simpl.
  destruct (last l) as [tn0|] eqn:Hl.
  - destruct (IH tn0 (StronglySorted_app_1_l _ _ _ Hs) eq_refl) as [_ Hpend].
    assert (Hle : tn0 ≤ t').
    { apply (StronglySorted_app_1_elem_of _ _ _ _ _ Hs).
      - by apply last_Some_elem_of.
      - by apply list_elem_of_singleton. }
    rewrite Hpend. split.
    + intros [[Hlt (ti & Hti & -> & _)]|[= ->]].
      * exists ti. split; [apply elem_of_app; by left|done].
      * exists t'. split; [apply elem_of_app; right;
                           by apply list_elem_of_singleton|lia].
    + intros (ti & Hti & -> & Hlt).
      apply elem_of_app in Hti as [Hti|Hti].
      * left. split; [done|]. exists ti. split; [done|]. split; [done|lia].
      * apply list_elem_of_singleton in Hti as ->. by right.
  - apply last_None in Hl as ->. simpl. split.
    + intros [[_ Hin]|[= ->]].
      * destruct (proj1 (list.Forall_forall _ _) Hfree _ Hin). done.
      * exists t'. split; [by apply list_elem_of_singleton|lia].
    + intros (ti & Hti & -> & _).
      apply list_elem_of_singleton in Hti as ->. by right.
Qed.

(** C9, as the code has it: every mark starts its own 2000 ms timeout and
    no timeout is ever cancelled.  So after any run of marks of a key (that
    had no timeout pending before) the timeouts pending for it are those of
    all the marks not yet due, and from the last mark on the key is
    highlighted exactly until the first of them is due.  For two marks at
    [t1] and [t2] inside the window: the key is highlighted from [t1] on,
    and after the second mark exactly until [t1 + 2000]; the first timeout
    removes it, the second mark does not move the expiry. *)
Theorem remark_keeps_first_expiry (d : Dash) (k : string) (t1 t2 t : Z)
    (times : list Z) (tn : Z) :
  Forall (λ x, x.2 ≠ k) (timeouts d) →
  (StronglySorted Z.le (times ++ [tn]) → tn ≤ t →
     (isHighlighted t k (marks k (times ++ [tn]) d) = true
      ↔ Forall (λ ti, ¬ (tn < ti + 2000 ∧ ti + 2000 ≤ t)) (times ++ [tn]))
     ∧ (∀ due, (due, k) ∈ timeouts (marks k (times ++ [tn]) d)
               ↔ ∃ ti, ti ∈ (times ++ [tn])%list ∧ due = ti + 2000 ∧ tn < due))
  ∧ (t1 ≤ t2 → t2 < t1 + 2000 →
     (t1 ≤ t → t ≤ t2 → isHighlighted t k (mark t1 k d) = true)
     ∧ (t2 ≤ t →
        isHighlighted t k (mark t2 k (fire t2 (mark t1 k d)))
        = bool_decide (t < t1 + 2000))).
Proof.
  intros Hfree. split.
  { intros Hs Hlast.
    destruct (marks_pending d k (times ++ [tn]) tn Hfree Hs (last_snoc _ _))
      as [Hin Hpend].
    split; [|exact Hpend].
    rewrite isHighlighted_spec, !list.Forall_forall. split.
    - intros [_ Hts] ti Hti [Hlt Hdue].
      apply (Hts (ti + 2000, k)); [|by split].
      apply Hpend. by exists ti.
    - intros Hmarks. split; [done|]. intros [due k'] Hx [Hdue Hk].
      simpl in *. subst k'. apply Hpend in Hx as (ti & Hti & -> & Hlt).
      by apply (Hmarks ti Hti). }
  intros H12 Hwin.
  assert (Hold : ∀ now, Forall (λ x, ¬ (x.1 ≤ now ∧ x.2 = k)) (timeouts d)).
  { intros now. eapply Forall_impl; [exact Hfree|].
    intros x Hx [_ Hk]. by apply Hx. }
  split.
  - intros H1 H2. apply isHighlighted_spec. simpl. split; [set_solver|].
    apply Forall_app. split; [apply Hold|].
    constructor; [|constructor]. simpl. lia.
  - intros H2.
    apply eq_true_iff_eq. rewrite isHighlighted_spec, bool_decide_eq_true.
    simpl. rewrite filter_app, !Forall_app, !Forall_singleton.
    rewrite (filter_cons_True _ (t1 + 2000, k) []) by (simpl; lia).
    rewrite filter_nil, Forall_singleton. simpl.
    split.
    + intros (_ & (_ & Hf) & _).
      destruct (Z.lt_ge_cases t (t1 + 2000)) as [|Hge]; [done|].
      destruct Hf. by split.
    + intros Ht. split; [set_solver|].
      split; [split|]; [|intros [? _]; lia..].
      apply list.Forall_forall. intros x Hx.
      apply list_elem_of_filter in Hx as [_ Hx].
      by apply (proj1 (list.Forall_forall _ _) (Hold t)).
Qed.

Lemma remark_keeps_first_expiry_witness :
  isHighlighted 1999 "PCT_1101"
    (mark 1000 "PCT_1101" (fire 1000 (mark 0 "PCT_1101" initial))) = true
  ∧ isHighlighted 2000 "PCT_1101"
      (mark 1000 "PCT_1101" (fire 1000 (mark 0 "PCT_1101" initial))) = false
  ∧ ¬ (isHighlighted 3500 "PCT_1101"
         (marks "PCT_1101" [0; 1000; 2500] initial) = true).
Proof.
  split; [|split].
  - destruct (remark_keeps_first_expiry initial "PCT_1101" 0 1000 1999 [] 0)
      as [_ Htwo]; [constructor|].
    destruct Htwo as [_ Hafter]; [lia|lia|].
    rewrite Hafter by lia. reflexivity.
  - destruct (remark_keeps_first_expiry initial "PCT_1101" 0 1000 2000 [] 0)
      as [_ Htwo]; [constructor|].
    destruct Htwo as [_ Hafter]; [lia|lia|].
    rewrite Hafter by lia. reflexivity.
  - destruct (remark_keeps_first_expiry initial "PCT_1101" 0 0 3500
                [0; 1000] 2500) as [Hgen _]; [constructor|].
    destruct Hgen as [Hiff _]; [|lia|].
    + repeat constructor; lia.
    + intros Hon. apply Hiff in Hon.
      apply (proj1 (list.Forall_forall _ _) Hon 1000);
        [repeat constructor|lia].
Defined.

(** C9 fails as stated: marked at 0 and again at 1000, the key ought to
    stay highlighted until 3000, but at 2500 it is gone. *)
Lemma remark_does_not_reset_expiry :
  ¬ (∀ (k : string) (t1 t2 t : Z),
       t1 ≤ t2 → t2 < t1 + 2000 → t1 ≤ t → t < t2 + 2000 →
       isHighlighted t k
         (if bool_decide (t2 ≤ t)
          then mark t2 k (fire t2 (mark t1 k initial))
          else mark t1 k initial) = true).
Proof.
  intros H. specialize (H "PCT_1101" 0 1000 2500).
  assert (isHighlighted 2500 "PCT_1101"
            (mark 1000 "PCT_1101" (fire 1000 (mark 0 "PCT_1101" initial)))
          = false) as Hoff by (vm_compute; reflexivity).
  rewrite bool_decide_true in H by lia.
  rewrite H in Hoff by lia. discriminate Hoff.
Qed.

End Highlight.

(** * Further properties of the code *)

(** ** The hook: loads, polling, pushes *)

Section RealtimeMore.
Import UseRealtime.
Local Open Scope list_scope.

(** A resolved [load] replaces the store, it does not merge into it: each
    key then holds the last fetched row of the election type the load was
    started for, and a key the fetch did not return is gone, whatever a
    push had stored under it.  The load leaves the pending list. *)
Theorem fetch_replaces_store (h : Hook) (i : nat) (e : ElectionType)
    (table : list PosteriorEstimate) (k : string) :
  inflight h !! i = Some e →
  posteriors (step h (FetchResolved i table)) !! k
  = last (filter (λ r, geo_id r = k) (fetchPosteriors e table))
  ∧ (¬ (∃ r, r ∈ table ∧ geo_id r = k ∧ election_type r = e) →
     posteriors (step h (FetchResolved i table)) !! k = None)
  ∧ S (length (inflight (step h (FetchResolved i table))))
    = length (inflight h).
Proof.
  intros Hi. simpl. rewrite Hi. simpl.
  assert (Hlook : new_Map (fetchPosteriors e table) !! k
                  = last (filter (λ r, geo_id r = k) (fetchPosteriors e table))).
  { rewrite new_Map_merge_all, merge_all_lookup, lookup_empty.
    by destruct (last _). }
  split; [exact Hlook|]. split.
  - intros Hnone. rewrite Hlook.
    destruct (last _) as [r|] eqn:Hl; [|done].
    apply last_Some_elem_of in Hl.
    apply list_elem_of_filter in Hl as [Hk Hl].
    unfold fetchPosteriors in Hl.
    apply list_elem_of_filter in Hl as [He Hl].
    destruct Hnone. by exists r.
  - rewrite length_delete by (rewrite Hi; eauto).
    apply lookup_lt_Some in Hi. lia.
Qed.

Lemma fetch_replaces_store_witness :
  posteriors
    (step (step (mount midterm)
             (PostgresChanges midterm Fixtures.pct7002_midterm))
          (FetchResolved 0 [Fixtures.pct1101_presidential]))
    !! "PCT_7002" = None.
Proof.
  apply (fetch_replaces_store
           (step (mount midterm)
              (PostgresChanges midterm Fixtures.pct7002_midterm))
           0 midterm [Fixtures.pct1101_presidential] "PCT_7002").
  - reflexivity.
  - intros (r & Hr & Hk & _). apply list_elem_of_singleton in Hr. subst r.
    discriminate Hk.
Defined.

Lemma clean_after_quiet_switch_witness :
  snapshot_clean
    (run (run (mount presidential) [FetchResolved 0 Fixtures.remote_table])
         [SetElectionType midterm;
          PostgresChanges midterm Fixtures.pct7002_midterm;
          PostgresChanges presidential Fixtures.pct1101_presidential;
          FetchResolved 0 Fixtures.remote_table]).
Proof.
  apply (clean_after_quiet_switch
           (run (mount presidential) [FetchResolved 0 Fixtures.remote_table])
           midterm
           [PostgresChanges midterm Fixtures.pct7002_midterm;
            PostgresChanges presidential Fixtures.pct1101_presidential;
            FetchResolved 0 Fixtures.remote_table]).
  - split; reflexivity.
  - reflexivity.
  - discriminate.
  - simpl. tauto.
Defined.

(** The render that the switch itself causes: it hands the rendering layer
    the new election type with every row of the old store, so a row of the
    old type is visible in it. *)
Lemma render_before_effect_stale (h : Hook) (e : ElectionType) k r :
  snapshot_clean h → e ≠ electionType h → posteriors h !! k = Some r →
  ∃ e' m c, render_before_effect e h = (e', m, c)
            ∧ e' = e ∧ m !! k = Some r ∧ election_type r ≠ e'.
Proof.
  intros Hclean Hne Hk. exists e, (posteriors h), (connected h).
  split; [done|]. split; [done|]. split; [done|].
  rewrite (Hclean _ _ Hk). congruence.
Qed.

(** The store heals itself: when a [load] made for the active election
    type resolves, every row in the store is of that type again, whatever
    a late load had written before. *)
Theorem current_fetch_cleans (h : Hook) (i : nat)
    (table : list PosteriorEstimate) :
  inflight h !! i = Some (electionType h) →
  snapshot_clean (step h (FetchResolved i table)).
Proof.
  intros Hi k r. simpl. rewrite Hi. simpl. apply new_Map_partition.
Qed.

Lemma current_fetch_cleans_witness :
  snapshot_clean
    (run (mount presidential)
       [SetElectionType midterm; FetchResolved 0 Fixtures.remote_table;
        FetchResolved 0 Fixtures.remote_table]).
Proof.
  apply (current_fetch_cleans
           (run (mount presidential)
              [SetElectionType midterm; FetchResolved 0 Fixtures.remote_table])
           0 Fixtures.remote_table).
  reflexivity.
Defined.

Lemma run_poll_connected h n :
  connected h = true → run h (replicate n PollTick) = h.
Proof.
  intros Hc. induction n as [|n IH]; [done|].
  simpl. unfold run in IH. by rewrite Hc.
Qed.

Lemma run_poll_disconnected h n :
  connected h = false →
  inflight (run h (replicate n PollTick))
  = inflight h ++ replicate n (electionType h)
  ∧ posteriors (run h (replicate n PollTick)) = posteriors h.
Proof.
  revert h. induction n as [|n IH]; intros h Hc.
  - simpl. by rewrite app_nil_r.
  - simpl. rewrite Hc.
    destruct (IH (load h) Hc) as [Hin Hpost].
    unfold run in *. rewrite Hin, Hpost. simpl.
    split; [|done]. by rewrite <- app_assoc.
Qed.

(** Fallback polling: in any state the hook can reach, once the open
    channel reports [SUBSCRIBED] the poll ticks do nothing at all; once it
    reports anything else, each tick starts one more load for the active
    election type and leaves the store alone until a load resolves. *)
Theorem polling_follows_connection (e0 : ElectionType) (evs : list Event)
    (n : nat) :
  let h := run (mount e0) evs in
  run (step h (SubscribeStatus (electionType h) true)) (replicate n PollTick)
  = step h (SubscribeStatus (electionType h) true)
  ∧ inflight
      (run (step h (SubscribeStatus (electionType h) false))
           (replicate n PollTick))
    = inflight h ++ replicate n (electionType h)
  ∧ posteriors
      (run (step h (SubscribeStatus (electionType h) false))
           (replicate n PollTick))
    = posteriors h.
Proof.
  intros h.
  destruct (wired_run (mount e0) evs (wired_mount e0)) as [Hc _].
  fold h in Hc.
  assert (Hon : ∀ b, connected (step h (SubscribeStatus (electionType h) b)) = b).
  { intros b. simpl. by rewrite decide_True. }
  split; [apply run_poll_connected, Hon|].
  destruct (run_poll_disconnected
              (step h (SubscribeStatus (electionType h) false)) n (Hon false))
    as [Hin Hpost].
  rewrite Hin, Hpost. simpl. by rewrite decide_True.
Qed.

(** Pushes compose: delivering the same row twice is the same as once, and
    two rows for different precincts can arrive in either order. *)
Theorem push_idempotent_commutes (e : ElectionType)
    (r1 r2 : PosteriorEstimate) (s : gmap string PosteriorEstimate) :
  on_postgres_changes e r1 (on_postgres_changes e r1 s)
  = on_postgres_changes e r1 s
  ∧ (geo_id r1 ≠ geo_id r2 →
     on_postgres_changes e r1 (on_postgres_changes e r2 s)
     = on_postgres_changes e r2 (on_postgres_changes e r1 s)).
Proof.
  unfold on_postgres_changes, merge. split.
  - case_decide; [|done]. apply insert_insert_eq.
  - intros Hne. repeat case_decide; try done. by apply insert_insert_ne.
Qed.

Lemma push_idempotent_commutes_witness :
  on_postgres_changes midterm Fixtures.pct1101_midterm
    (on_postgres_changes midterm Fixtures.pct7002_midterm ∅)
  = on_postgres_changes midterm Fixtures.pct7002_midterm
      (on_postgres_changes midterm Fixtures.pct1101_midterm ∅).
Proof.
  apply (push_idempotent_commutes midterm Fixtures.pct1101_midterm
           Fixtures.pct7002_midterm ∅).
  discriminate.
Defined.

End RealtimeMore.

(** ** The map's style *)

Section StyleMore.
Import Js TurnoutMap.
Local Open Scope Q_scope.

(** The colour bands, read on the displayed turnout itself and clear of
    the band boundaries: brightest from 0.72, then one shade for each of
    [0.64, 0.71], [0.56, 0.63], [0.48, 0.55], [0.39, 0.46] and
    [0.31, 0.38], darkest up to 0.30; the colour is always one of these
    seven, and the flash colour is used for a highlight and for nothing
    else. *)
Theorem colour_bands (muPrior : Q) (p : option PosteriorEstimate) :
  let t := displayedTurnout p muPrior in
  let c := getTurnoutColor muPrior p false in
  (0.72 <= t → c = "#00E5FF")
  ∧ (0.64 <= t → t <= 0.71 → c = "#22D3EE")
  ∧ (0.56 <= t → t <= 0.63 → c = "#06B6D4")
  ∧ (0.48 <= t → t <= 0.55 → c = "#0891B2")
  ∧ (0.39 <= t → t <= 0.46 → c = "#0E7490")
  ∧ (0.31 <= t → t <= 0.38 → c = "#155E75")
  ∧ (t <= 0.30 → c = "#164E63")
  ∧ c ∈ ["#00E5FF"; "#22D3EE"; "#06B6D4"; "#0891B2"; "#0E7490"; "#155E75";
         "#164E63"]
  ∧ c ≠ "#00FFFF"
  ∧ getTurnoutColor muPrior p true = "#00FFFF".
Proof.
  intros t c. unfold c. rewrite colour_of_displayed. fold t.
  pose proof (colour_interior t) as (H1 & H2 & H3 & H4 & H5 & H6 & H7).
  pose proof (colour_thresholds_exact t) as (_ & _ & _ & _ & _ & _ & _ & Hne).
  split; [exact H1|]. split; [exact H2|]. split; [exact H3|].
  split; [exact H4|]. split; [exact H5|]. split; [exact H6|].
  split; [exact H7|]. split; [|split; [exact Hne|done]].
  unfold getTurnoutColor. simpl.
  repeat (match goal with |- context [if ?b then _ else _] => destruct b end);
    set_solver.
Qed.

Lemma colour_bands_witness :
  getTurnoutColor 0.6 (Some Fixtures.pct1101_presidential) false = "#00E5FF"
  ∧ getTurnoutColor 0.6 (Some Fixtures.pct7002_midterm) false = "#06B6D4".
Proof.
  split.
  - apply (colour_bands 0.6 (Some Fixtures.pct1101_presidential)).
    discriminate.
  - apply (colour_bands 0.6 (Some Fixtures.pct7002_midterm)); discriminate.
Defined.

(** Opacity stays in range: for a row whose [n_eff] is not negative (or no
    row) it lies between the base 0.55 and the highlight's 0.95; a visible
    row is never fainter than 0.6, hence always more opaque than a hidden
    one, and from twelve responses on it sits at the cap. *)
Theorem opacity_range (posterior : option PosteriorEstimate)
    (isRecentlyUpdated : bool) :
  0 <= default 0 (posterior ≫= n_eff) →
  (0.55 <= getOpacity posterior isRecentlyUpdated
   ∧ getOpacity posterior isRecentlyUpdated <= 0.95)
  ∧ (default false (is_visible <$> posterior) = true →
     0.6 <= getOpacity posterior false
     ∧ getOpacity None false < getOpacity posterior false
     ∧ (12 <= default 0 (posterior ≫= n_eff) →
        getOpacity posterior false == 0.9)).
Proof.
  intros Hn. unfold getOpacity.
  set (n := default 0 (posterior ≫= n_eff)) in *.
  destruct (Q.min_spec 0.9 (0.6 + n * 0.025)) as [[Hlt Hm]|[Hle Hm]].
  - split.
    + destruct isRecentlyUpdated; [split; discriminate|].
      destruct (default false _); [lra|split; [apply Qle_refl|discriminate]].
    + intros ->. simpl. split; [lra|]. split; [lra|]. intros H12. lra.
  - split.
    + destruct isRecentlyUpdated; [split; discriminate|].
      destruct (default false _); [lra|split; [apply Qle_refl|discriminate]].
    + intros ->. simpl. split; [lra|]. split; [lra|]. intros H12. lra.
Qed.

Lemma opacity_range_witness :
  0.6 <= getOpacity (Some Fixtures.pct1101_midterm) false
  ∧ getOpacity None false < getOpacity (Some Fixtures.pct1101_midterm) false.
Proof.
  destruct (opacity_range (Some Fixtures.pct1101_midterm) false)
    as [_ Hv]; [discriminate|].
  destruct Hv as (H6 & Hlt & _); [reflexivity|]. by split.
Defined.

(** The border glow: it is 0, 0.25 or 0.5, plus 0.1 for a visible row, so
    never above 0.6; it is positive exactly from a displayed turnout of
    0.6 on; and it does not decrease when the displayed turnout grows. *)
Theorem glow_steps (p : option PosteriorEstimate) (muPrior muPrior' : Q) :
  let g := getGlowIntensity p muPrior in
  let t := displayedTurnout p muPrior in
  (0 <= g ∧ g <= 0.6)
  ∧ (0 < g ↔ 0.6 <= t)
  ∧ (0.5 <= g ↔ 0.7 <= t)
  ∧ (t <= displayedTurnout p muPrior' → g <= getGlowIntensity p muPrior').
Proof.
  intros g t. unfold g, getGlowIntensity. fold (displayedTurnout p muPrior).
  fold (displayedTurnout p muPrior'). fold t.
  set (t' := displayedTurnout p muPrior').
  set (boost := if default false (is_visible <$> p) then 0.1 else 0).
  assert (Hb : 0 <= boost ∧ boost <= 0.1).
  { unfold boost. destruct (default false _); split; discriminate. }
  destruct Hb as [Hb0 Hb1].
  destruct (geq t 0.7) eqn:E7; [apply geq_true in E7|apply geq_false in E7];
    [|destruct (geq t 0.6) eqn:E6;
        [apply geq_true in E6|apply geq_false in E6]];
    (split; [split; lra|]); (split; [split; intros; lra|]);
    (split; [split; intros; lra|]); intros Hle;
    (destruct (geq t' 0.7) eqn:E7'; [apply geq_true in E7'|apply geq_false in E7'];
     [|destruct (geq t' 0.6) eqn:E6';
         [apply geq_true in E6'|apply geq_false in E6']]); lra.
Qed.

Lemma glow_steps_witness :
  getGlowIntensity None 0.62 <= getGlowIntensity None 0.75.
Proof.
  apply (glow_steps None 0.62 0.75). discriminate.
Defined.

(** The tooltip and the border agree: the label reads "High turnout
    expected" exactly when the glow is on its upper step, and "Lower
    turnout expected" only where there is no glow. *)
Theorem label_matches_glow (p : option PosteriorEstimate) (muPrior : Q) :
  let t := displayedTurnout p muPrior in
  (getTurnoutLabel t = "High turnout expected"
   ↔ 0.5 <= getGlowIntensity p muPrior)
  ∧ (getTurnoutLabel t = "Lower turnout expected" →
     getGlowIntensity p muPrior = 0).
Proof.
  intros t. unfold getTurnoutLabel, getGlowIntensity.
  fold (displayedTurnout p muPrior). fold t.
  set (boost := if default false (is_visible <$> p) then 0.1 else 0).
  assert (Hb : 0 <= boost ∧ boost <= 0.1).
  { unfold boost. destruct (default false _); split; discriminate. }
  destruct Hb as [Hb0 Hb1].
  destruct (geq t 0.7) eqn:E7; [apply geq_true in E7|apply geq_false in E7].
  - split; [|discriminate]. split; [intros _; lra|done].
  - destruct (geq t 0.5) eqn:E5; [apply geq_true in E5|apply geq_false in E5].
    + split; [|discriminate]. split; [discriminate|].
      destruct (geq t 0.6); intros H; lra.
    + assert (geq t 0.6 = false) as -> by (apply geq_false; lra).
      split; [|done]. split; [discriminate|intros H; lra].
Qed.

Lemma label_matches_glow_witness :
  getGlowIntensity None 0.45 = 0%Q.
Proof.
  apply (proj2 (label_matches_glow None 0.45)). reflexivity.
Defined.

End StyleMore.

Section StyleGating.
Import Js TurnoutMap.
Local Open Scope Q_scope.

Lemma hidden_posterior_functions (p : option PosteriorEstimate)
    (muPrior : Q) (hl : bool) :
  default false (is_visible <$> p) = false →
  getTurnoutColor muPrior p hl = getTurnoutColor muPrior None hl
  ∧ getOpacity p hl = getOpacity None hl
  ∧ getGlowIntensity p muPrior = getGlowIntensity None muPrior.
Proof.
  intros Hv. unfold getTurnoutColor, getOpacity, getGlowIntensity.
  by rewrite Hv.
Qed.

(** Below the visibility threshold nothing of the posterior is drawn: two
    stores whose rows for a precinct are both hidden (or missing) and carry
    the same prior give that precinct the same style, whatever their
    [mu_post], [n_eff] and [divergence_z] are. *)
Theorem hidden_row_not_drawn (m1 m2 : gmap string PosteriorEstimate)
    (selected : option string) (recentlyUpdated : gset string)
    (props : PrecinctProperties) :
  default false (is_visible <$> m1 !! props_geo_id props) = false →
  default false (is_visible <$> m2 !! props_geo_id props) = false →
  m1 !! props_geo_id props ≫= mu_prior = m2 !! props_geo_id props ≫= mu_prior →
  style m1 selected recentlyUpdated (Some props)
  = style m2 selected recentlyUpdated (Some props).
Proof.
  intros H1 H2 Hprior. unfold style. rewrite Hprior.
  set (muPrior := default (props_mu_prior props) _).
  set (hl := bool_decide _).
  destruct (hidden_posterior_functions (m1 !! props_geo_id props) muPrior hl H1)
    as (-> & -> & ->).
  destruct (hidden_posterior_functions (m2 !! props_geo_id props) muPrior hl H2)
    as (-> & -> & ->).
  done.
Qed.

Lemma hidden_row_not_drawn_witness :
  style {[ "PCT_7002" := Fixtures.pct7002_midterm ]} None ∅
    (Some {| props_geo_id := "PCT_7002"; props_mu_prior := 0.4 |})
  = style
      {[ "PCT_7002" :=
           with_mu_post (Some 0.9) Fixtures.pct7002_midterm ]} None ∅
      (Some {| props_geo_id := "PCT_7002"; props_mu_prior := 0.4 |}).
Proof.
  apply (hidden_row_not_drawn
           {[ "PCT_7002" := Fixtures.pct7002_midterm ]}
           {[ "PCT_7002" := with_mu_post (Some 0.9) Fixtures.pct7002_midterm ]}
           None ∅ {| props_geo_id := "PCT_7002"; props_mu_prior := 0.4 |});
    reflexivity.
Defined.

(** While a precinct is in [recentlyUpdated] its style does not depend on
    the data at all: any two stores (and any two priors in the geometry
    file) give the same flash fill, opacity 0.95 and cyan border. *)
Theorem highlight_hides_data (m1 m2 : gmap string PosteriorEstimate)
    (selected : option string) (recentlyUpdated : gset string)
    (geoId : string) (prior1 prior2 : Q) :
  geoId ∈ recentlyUpdated →
  style m1 selected recentlyUpdated
    (Some {| props_geo_id := geoId; props_mu_prior := prior1 |})
  = style m2 selected recentlyUpdated
      (Some {| props_geo_id := geoId; props_mu_prior := prior2 |})
  ∧ (fillColor <$> style m1 selected recentlyUpdated
       (Some {| props_geo_id := geoId; props_mu_prior := prior1 |}))
    = Some "#00FFFF"
  ∧ (color <$> style m1 selected recentlyUpdated
       (Some {| props_geo_id := geoId; props_mu_prior := prior1 |}))
    = Some (Hex "#00FFFF").
Proof.
  intros Hin. unfold style. simpl.
  rewrite !(bool_decide_true (geoId ∈ recentlyUpdated)) by done.
  split; [|split]; [done|done|]. simpl. by destruct (bool_decide _).
Qed.

Lemma highlight_hides_data_witness :
  style {[ "PCT_1101" := Fixtures.pct1101_midterm ]} None {[ "PCT_1101" ]}
    (Some {| props_geo_id := "PCT_1101"; props_mu_prior := 0.4 |})
  = style ∅ None {[ "PCT_1101" ]}
      (Some {| props_geo_id := "PCT_1101"; props_mu_prior := 0.8 |}).
Proof.
  apply (highlight_hides_data {[ "PCT_1101" := Fixtures.pct1101_midterm ]} ∅
           None {[ "PCT_1101" ]} "PCT_1101" 0.4 0.8).
  by apply elem_of_singleton.
Defined.

(** Which precincts the effect marks when the map is handed a new store. *)
Lemma elem_of_changedGeoIds (prev m : gmap string PosteriorEstimate) k :
  k ∈ changedGeoIds prev m
  ↔ ∃ current, m !! k = Some current ∧ changed (prev !! k) current = true.
Proof.
  unfold changedGeoIds. rewrite elem_of_dom. unfold is_Some.
  setoid_rewrite map_lookup_filter_Some. simpl. reflexivity.
Qed.

Lemma strict_neq_refl a : strict_neq a a = false.
Proof. destruct a as [x|]; simpl; [|done]. by rewrite Qeq_bool_refl. Qed.

Lemma changed_same p : changed (Some p) p = false.
Proof. simpl. by rewrite !strict_neq_refl. Qed.

(** The pulse effect: on the first store every precinct in it is marked
    as changed; a store equal to the previous one marks none; and after one
    push is merged, at most the pushed precinct is marked, and it is
    exactly when the row is new or its [n_eff] or [mu_post] moved. *)
Theorem pulse_on_change (prev : gmap string PosteriorEstimate)
    (row : PosteriorEstimate) :
  changedGeoIds ∅ prev = dom prev
  ∧ changedGeoIds prev prev = ∅
  ∧ changedGeoIds prev (UseRealtime.merge row prev) ⊆ {[ geo_id row ]}
  ∧ (geo_id row ∈ changedGeoIds prev (UseRealtime.merge row prev)
     ↔ changed (prev !! geo_id row) row = true).
Proof.
  repeat split.
  - apply set_eq. intros k. rewrite elem_of_changedGeoIds, elem_of_dom.
    rewrite lookup_empty. unfold is_Some. simpl. split.
    + intros (cur & Hk & _). by exists cur.
    + intros [cur Hk]. by exists cur.
  - apply set_eq. intros k. rewrite elem_of_changedGeoIds.
    split; [|set_solver]. intros (cur & Hk & Hch).
    rewrite Hk, changed_same in Hch. discriminate.
  - intros k. rewrite elem_of_changedGeoIds, elem_of_singleton.
    intros (cur & Hk & Hch). unfold UseRealtime.merge in Hk.
    destruct (decide (geo_id row = k)) as [|Hne]; [done|].
    rewrite lookup_insert_ne in Hk by done.
    rewrite Hk, changed_same in Hch. discriminate.
  - rewrite elem_of_changedGeoIds. unfold UseRealtime.merge.
    rewrite lookup_insert_eq. by intros (cur & [= <-] & Hch).
  - intros Hch. apply elem_of_changedGeoIds. exists row.
    unfold UseRealtime.merge. by rewrite lookup_insert_eq.
Qed.

End StyleGating.

(** ** Signals, the log and the counters *)

Section SignalsMore.
Import Js Dashboard.
Local Open Scope Q_scope.

(** The displayed shift goes with the direction: a [higher] signal has a
    positive shift and a [lower] one a negative shift (a [same] signal may
    have either sign), and the neutral answers give no shift. *)
Theorem shift_follows_direction (lookup : gmap string string)
    (posteriors : gmap string PosteriorEstimate) (sub : PollSubmission) :
  let s := newSignal lookup posteriors sub in
  (signalType s = higher → 0 < posteriorShift s)
  ∧ (signalType s = lower → posteriorShift s < 0)
  ∧ (neighbor_turnout sub = about_half → turnout_direction sub = about_same →
     posteriorShift s == 0).
Proof.
  destruct sub as [i c g n d]. simpl.
  destruct n, d; vm_compute; intuition congruence.
Qed.

Lemma shift_follows_direction_witness :
  0 < posteriorShift (newSignal ∅ ∅ (Fixtures.submission "PCT_1101")).
Proof.
  apply (shift_follows_direction ∅ ∅ (Fixtures.submission "PCT_1101")).
  reflexivity.
Defined.

(** A submission read back from history gives the entry the live handler
    gave it exactly when the live impact was [medium], that is when the
    precinct's |z| was in [0.75, 1.5); otherwise the two differ, and only
    in [impact]. *)
Theorem history_entry_agrees_iff_medium (lookup : gmap string string)
    (posteriors : gmap string PosteriorEstimate) (sub : PollSubmission) :
  let z := Qabs (default 0 (posteriors !! sub_geo_id sub ≫= divergence_z)) in
  (loadedSignal lookup sub = newSignal lookup posteriors sub
   ↔ 0.75 <= z ∧ z < 1.5)
  ∧ id (loadedSignal lookup sub) = id (newSignal lookup posteriors sub)
  ∧ geoId (loadedSignal lookup sub) = geoId (newSignal lookup posteriors sub)
  ∧ neighborhood (loadedSignal lookup sub)
    = neighborhood (newSignal lookup posteriors sub)
  ∧ signalType (loadedSignal lookup sub)
    = signalType (newSignal lookup posteriors sub)
  ∧ posteriorShift (loadedSignal lookup sub)
    = posteriorShift (newSignal lookup posteriors sub).
Proof.
  intros z. split; [|done].
  unfold loadedSignal, newSignal. fold z.
  destruct (geq z 1.5) eqn:E1; [apply geq_true in E1|apply geq_false in E1].
  - split; [discriminate|]. intros [_ H]. lra.
  - destruct (geq z 0.75) eqn:E2; [apply geq_true in E2|apply geq_false in E2].
    + split; [by intros _|done].
    + split; [discriminate|]. intros [H _]. lra.
Qed.

End SignalsMore.

Section LogMore.
Import Js Dashboard.
Local Open Scope list_scope.

Lemma appends_from {A} (init l : list A) :
  (length init ≤ 50)%nat →
  foldl appendSignal init l = drop (length (init ++ l) - 50) (init ++ l).
Proof.
  intros Hinit. induction l as [|x l IH] using rev_ind.
  - rewrite app_nil_r. simpl. by replace (length init - 50)%nat with 0%nat by lia.
  - rewrite foldl_app. simpl. rewrite IH, appendSignal_drop.
    rewrite length_drop, drop_drop, app_assoc, !length_app. simpl.
    rewrite (drop_app_le (init ++ l)) by (rewrite length_app; lia).
    do 2 f_equal. lia.
Qed.

Lemma loadSignals_nonempty (lookup : gmap string string)
    (subs : list PollSubmission) (s : list SignalEntry) :
  subs ≠ [] →
  loadSignals lookup subs s
  = loadedSignal lookup <$> drop (length subs - 50) subs.
Proof.
  intros Hne. destruct subs as [|sub subs]; [done|]. unfold loadSignals.
  rewrite (slice_neg 50) by lia. by rewrite length_fmap, fmap_drop.
Qed.

(** The history load replaces the log: for a non-empty result the log is
    the entries of its last 50 rows in the fetched order, whatever was
    there before; an empty result leaves the log as it is. *)
Theorem load_replaces_log (lookup : gmap string string)
    (subs : list PollSubmission) (s1 s2 : list SignalEntry) :
  loadSignals lookup [] s1 = s1
  ∧ (subs ≠ [] →
     loadSignals lookup subs s1 = loadSignals lookup subs s2
     ∧ loadSignals lookup subs s1
       = loadedSignal lookup <$> drop (length subs - 50) subs
     ∧ length (loadSignals lookup subs s1) = Nat.min (length subs) 50).
Proof.
  split; [done|]. intros Hne.
  rewrite !loadSignals_nonempty by done. split; [done|]. split; [done|].
  rewrite length_fmap, length_drop. lia.
Qed.

Lemma load_replaces_log_witness :
  loadSignals ∅ [Fixtures.submission "PCT_1101"]
    [loadedSignal ∅ (Fixtures.submission "PCT_7002")]
  = loadSignals ∅ [Fixtures.submission "PCT_1101"] [].
Proof.
  apply (load_replaces_log ∅ [Fixtures.submission "PCT_1101"]
           [loadedSignal ∅ (Fixtures.submission "PCT_7002")] []).
  discriminate.
Defined.

(** History then live: after a history load and any number of live
    appends, the log is the last 50 of the loaded entries followed by the
    appended ones, in that order. *)
Theorem history_then_live (lookup : gmap string string)
    (subs : list PollSubmission) (s0 news : list SignalEntry) :
  subs ≠ [] →
  let everything := (loadedSignal lookup <$> subs) ++ news in
  foldl appendSignal (loadSignals lookup subs s0) news
  = drop (length everything - 50) everything.
Proof.
  intros Hne everything.
  pose proof (loadSignals_nonempty lookup subs s0 Hne) as Hl.
  rewrite Hl.
  rewrite appends_from by (rewrite length_fmap, length_drop; lia).
  unfold everything.
  rewrite !length_app, !length_fmap, length_drop.
  destruct (decide (length subs ≤ 50)%nat) as [Hs|Hs].
  - replace (length subs - 50)%nat with 0%nat by lia.
    by rewrite drop_0, Nat.sub_0_r.
  - rewrite fmap_drop.
    set (hist := loadedSignal lookup <$> subs).
    assert (Hh : length hist = length subs) by apply length_fmap.
    rewrite !drop_app, drop_drop, length_drop, Hh.
    f_equal; f_equal; lia.
Qed.

End LogMore.

Lemma history_then_live_witness :
  foldl Dashboard.appendSignal
    (Dashboard.loadSignals ∅ [Fixtures.submission "PCT_1101"] [])
    [Dashboard.newSignal ∅ ∅ (Fixtures.submission "PCT_7002")]
  = [Dashboard.loadedSignal ∅ (Fixtures.submission "PCT_1101");
     Dashboard.newSignal ∅ ∅ (Fixtures.submission "PCT_7002")].
Proof.
  apply (history_then_live ∅ [Fixtures.submission "PCT_1101"] []
           [Dashboard.newSignal ∅ ∅ (Fixtures.submission "PCT_7002")]).
  discriminate.
Defined.

(** ** Highlights over time *)

Section HighlightMore.
Import Dashboard.
Local Open Scope Z_scope.

(** One mark: a key with no timeout pending is highlighted from the mark
    until 2000 ms later and not after; and a mark for one key neither
    prolongs nor cuts the highlight of another. *)
Theorem mark_lifetime (d : Dash) (k k' : string) (t0 t : Z) :
  (Forall (λ x, x.2 ≠ k) (timeouts d) →
   isHighlighted t k (mark t0 k d) = bool_decide (t < t0 + 2000))
  ∧ (k' ≠ k →
     isHighlighted t k (mark t0 k' d) = isHighlighted t k d).
Proof.
  split.
  - intros Hfree. apply eq_true_iff_eq.
    rewrite isHighlighted_spec, bool_decide_eq_true. simpl.
    rewrite Forall_app, Forall_singleton. simpl. split.
    + intros (_ & _ & Hf).
      destruct (Z.lt_ge_cases t (t0 + 2000)) as [|Hge]; [done|].
      destruct Hf. by split.
    + intros Ht. split; [set_solver|]. split; [|intros [? _]; lia].
      eapply Forall_impl; [exact Hfree|]. intros x Hx [_ Hk]. by apply Hx.
  - intros Hne. apply eq_true_iff_eq. rewrite !isHighlighted_spec. simpl.
    rewrite Forall_app, Forall_singleton, elem_of_union, elem_of_singleton.
    simpl. split.
    + intros ([Hk|Hk] & Hts & _); [by destruct Hne|done].
    + intros [Hk Hts]. split; [by right|]. split; [done|].
      intros [_ Heq]. by apply Hne.
Qed.

Lemma mark_lifetime_witness :
  isHighlighted 1999 "PCT_1101" (mark 0 "PCT_1101" initial) = true
  ∧ isHighlighted 2000 "PCT_1101" (mark 0 "PCT_1101" initial) = false
  ∧ isHighlighted 2000 "PCT_1101"
      (mark 1500 "PCT_7002" (mark 0 "PCT_1101" initial)) = false.
Proof.
  split; [|split].
  - rewrite (proj1 (mark_lifetime initial "PCT_1101" "PCT_1101" 0 1999))
      by constructor. reflexivity.
  - rewrite (proj1 (mark_lifetime initial "PCT_1101" "PCT_1101" 0 2000))
      by constructor. reflexivity.
  - rewrite (proj2 (mark_lifetime (mark 0 "PCT_1101" initial)
                      "PCT_1101" "PCT_7002" 1500 2000)) by discriminate.
    rewrite (proj1 (mark_lifetime initial "PCT_1101" "PCT_1101" 0 2000))
      by constructor. reflexivity.
Defined.

Lemma expiring_mark bound now k d :
  now + 2000 ≤ bound → expiring bound d → expiring bound (mark now k d).
Proof.
  intros Hb [Hcov Hdue]. split; simpl.
  - intros k' Hk'. apply elem_of_union in Hk' as [Hk'|Hk'].
    + apply elem_of_singleton in Hk' as ->. exists (now + 2000).
      apply elem_of_app. right. by apply list_elem_of_singleton.
    + destruct (Hcov _ Hk') as [t Ht]. exists t.
      apply elem_of_app. by left.
  - apply Forall_app. split; [done|]. by apply Forall_singleton.
Qed.

Lemma expiring_fire bound now d :
  expiring bound d → expiring bound (fire now d).
Proof.
  intros [Hcov Hdue]. split; simpl.
  - intros k Hk. apply elem_of_fire_set in Hk as [Hk Hts].
    destruct (Hcov _ Hk) as [t Ht]. exists t.
    apply list_elem_of_filter. split; [|done]. simpl.
    destruct (Z.lt_ge_cases now t) as [|Hge]; [done|].
    destruct (proj1 (list.Forall_forall _ _) Hts _ Ht). by split.
  - apply list.Forall_forall. intros x Hx.
    apply list_elem_of_filter in Hx as [_ Hx].
    by apply (proj1 (list.Forall_forall _ _) Hdue).
Qed.

Lemma expiring_onInsert bound now lookup
    (posteriors : gmap string PosteriorEstimate) sub d :
  now + 2000 ≤ bound → expiring bound d →
  expiring bound (onInsert now lookup posteriors sub d).
Proof.
  intros Hb Hd.
  pose proof (expiring_mark bound now (sub_geo_id sub) (fire now d) Hb
                (expiring_fire bound now d Hd)) as [Hcov Hdue].
  by split.
Qed.

(** No highlight outlives its window: whatever submissions arrive, and
    for whatever precincts, once 2000 ms have passed since each of them no
    key is left in [recentlyUpdated] and no timeout is left pending. *)
Theorem highlights_all_expire (lookup : gmap string string)
    (posteriors : gmap string PosteriorEstimate)
    (arrivals : list (Z * PollSubmission)) (now : Z) :
  Forall (λ a, a.1 + 2000 ≤ now) arrivals →
  let d := foldl (λ d a, onInsert a.1 lookup posteriors a.2 d)
             initial arrivals in
  recentlyUpdated (fire now d) = ∅ ∧ timeouts (fire now d) = [].
Proof.
  intros Harr d.
  assert (Hexp : expiring now d).
  { unfold d. clear d.
    induction arrivals as [|a arrivals IH] using rev_ind.
    - split; [set_solver|constructor].
    - apply Forall_app in Harr as [Harr Ha].
      apply (proj1 (Forall_singleton _ _)) in Ha.
      rewrite foldl_app. simpl. apply expiring_onInsert; [exact Ha|by apply IH]. }
  destruct Hexp as [Hcov Hdue]. split.
  - apply set_eq. intros k. split; [|set_solver]. simpl.
    intros Hk. apply elem_of_fire_set in Hk as [Hk Hts].
    destruct (Hcov _ Hk) as [t Ht].
    destruct (proj1 (list.Forall_forall _ _) Hts _ Ht). split; [|done].
    by apply (proj1 (list.Forall_forall _ _) Hdue _ Ht).
  - simpl. destruct (filter _ _) as [|x l] eqn:E; [done|].
    assert (Hx : x ∈ filter (λ t, now < t.1) (timeouts d))
      by (rewrite E; apply list_elem_of_here).
    apply list_elem_of_filter in Hx as [Hlt Hx].
    pose proof (proj1 (list.Forall_forall _ _) Hdue _ Hx). simpl in *. lia.
Qed.

End HighlightMore.

Lemma highlights_all_expire_witness :
  Dashboard.recentlyUpdated
    (Dashboard.fire 3000
       (foldl (λ d a, Dashboard.onInsert a.1 ∅ ∅ a.2 d) Dashboard.initial
          [(0%Z, Fixtures.submission "PCT_1101");
           (1000%Z, Fixtures.submission "PCT_1101")]))
  = ∅.
Proof.
  apply (highlights_all_expire ∅ ∅
           [(0%Z, Fixtures.submission "PCT_1101");
            (1000%Z, Fixtures.submission "PCT_1101")] 3000).
  repeat constructor; simpl; lia.
Defined.

(** ** The status bar's counters *)

Section Counters.
Import Js Dashboard.
Local Open Scope Q_scope.

Lemma elem_of_values (m : gmap string PosteriorEstimate) k p :
  m !! k = Some p → p ∈ values m.
Proof.
  intros Hk. unfold values. apply list_elem_of_fmap. exists (k, p).
  split; [done|]. by apply elem_of_map_to_list.
Qed.

Lemma values_lookup (m : gmap string PosteriorEstimate) p :
  p ∈ values m → ∃ k, m !! k = Some p.
Proof.
  unfold values. intros Hp. apply list_elem_of_fmap in Hp as ([k p'] & -> & Hp).
  exists k. by apply elem_of_map_to_list.
Qed.

(** The two counters of the status bar: the high-divergence zones are
    among the reporting precincts, and these among the stored rows; a
    visible row with |z| of 1.5 or more is counted as a zone; and while no
    row is visible both counters are 0, whatever the z values are. *)
Theorem status_counters (m : gmap string PosteriorEstimate) :
  (highDivergenceZones m ≤ visibleCount m)%nat
  ∧ (visibleCount m ≤ size m)%nat
  ∧ (∀ k p, m !! k = Some p → is_visible p = true →
       1.5 <= Qabs (default 0 (divergence_z p)) →
       (1 ≤ highDivergenceZones m)%nat)
  ∧ ((∀ k p, m !! k = Some p → is_visible p = false) →
     visibleCount m = 0%nat ∧ highDivergenceZones m = 0%nat).
Proof.
  assert (Hle : (highDivergenceZones m ≤ visibleCount m)%nat).
  { unfold highDivergenceZones, visibleCount.
    rewrite <- (list_filter_filter_l _ (λ p, is_visible p = true)).
    - apply length_filter.
    - intros p Hp. by apply andb_true_iff in Hp as [? _]. }
  split; [exact Hle|]. split; [|split].
  - unfold visibleCount. etrans; [apply length_filter|].
    unfold values. by rewrite length_fmap, length_map_to_list.
  - intros k p Hk Hv Hz. unfold highDivergenceZones.
    assert (Hin : p ∈ filter
              (λ p, is_visible p && geq (Qabs (default 0 (divergence_z p))) 1.5
                    = true) (values m)).
    { apply list_elem_of_filter. split; [|by eapply elem_of_values].
      apply andb_true_iff. split; [done|]. by apply geq_true. }
    destruct (filter _ _) as [|x l]; [by apply elem_of_nil in Hin|].
    simpl. lia.
  - intros Hnone.
    assert (Hv : visibleCount m = 0%nat); [|split; [done|lia]].
    unfold visibleCount.
    destruct (filter _ _) as [|x l] eqn:E; [done|].
    assert (Hx : x ∈ filter (λ p, is_visible p = true) (values m))
      by (rewrite E; apply list_elem_of_here).
    apply list_elem_of_filter in Hx as [Hvis Hx].
    apply values_lookup in Hx as [k Hk].
    rewrite (Hnone _ _ Hk) in Hvis. discriminate.
Qed.

Lemma status_counters_witness :
  (1 ≤ highDivergenceZones
         {[ "PCT_1101" := Fixtures.pct1101_presidential ]})%nat.
Proof.
  apply (proj1 (proj2 (proj2
           (status_counters {[ "PCT_1101" := Fixtures.pct1101_presidential ]})))
           "PCT_1101" Fixtures.pct1101_presidential).
  - apply lookup_singleton_eq.
  - reflexivity.
  - vm_compute. discriminate.
Defined.

End Counters.

(** ** The animated counter *)

Section Animation.
Import Js UseAnimations.
Local Open Scope Q_scope.

Lemma Math_round_Z (z : Z) : Math_round (inject_Z z) = z.
Proof.
  unfold Math_round.
  pose proof (Qfloor_le (inject_Z z + (1 # 2))) as Hlo.
  pose proof (Qlt_floor (inject_Z z + (1 # 2))) as Hhi.
  set (f := Qfloor (inject_Z z + (1 # 2))) in *.
  rewrite inject_Z_plus in Hhi.
  assert (inject_Z f < inject_Z (z + 1)) as H1
    by (rewrite inject_Z_plus; change (inject_Z 1) with 1 in *; lra).
  assert (inject_Z z < inject_Z (f + 1)) as H2
    by (rewrite inject_Z_plus; change (inject_Z 1) with 1 in *; lra).
  rewrite <- Zlt_Qlt in H1, H2. lia.
Qed.

Lemma Math_round_between (lo hi : Z) (x : Q) :
  inject_Z lo <= x → x <= inject_Z hi →
  (lo ≤ Math_round x ∧ Math_round x ≤ hi)%Z.
Proof.
  intros Hlo Hhi. split.
  - rewrite <- (Qfloor_Z lo). unfold Math_round. apply Qfloor_resp_le. lra.
  - rewrite <- (Math_round_Z hi). unfold Math_round. apply Qfloor_resp_le. lra.
Qed.

Lemma cube_bounds (u : Q) : 0 <= u → u <= 1 → 0 <= u ^ 3 ∧ u ^ 3 <= 1.
Proof. intros H0 H1. simpl. split; nra. Qed.

Lemma ease_bounds (p : Q) :
  0 <= p → p <= 1 → 0 <= 1 - (1 - p) ^ 3 ∧ 1 - (1 - p) ^ 3 <= 1.
Proof.
  intros H0 H1.
  destruct (cube_bounds (1 - p)) as [Hc0 Hc1]; [lra|lra|].
  set (c := (1 - p) ^ 3) in *. split; lra.
Qed.

Lemma ease_0 (p : Q) : p == 0 → 1 - (1 - p) ^ 3 == 0.
Proof. intros Hp. simpl. rewrite Hp. reflexivity. Qed.

Lemma ease_1 (p : Q) : p == 1 → 1 - (1 - p) ^ 3 == 1.
Proof. intros Hp. simpl. rewrite Hp. reflexivity. Qed.

Lemma lerp_up (s v e : Q) :
  0 <= e → e <= 1 → s <= v →
  s <= s + (v - s) * e ∧ s + (v - s) * e <= v.
Proof. intros. split; nra. Qed.

Lemma lerp_down (s v e : Q) :
  0 <= e → e <= 1 → v <= s →
  v <= s + (v - s) * e ∧ s + (v - s) * e <= s.
Proof. intros. split; nra. Qed.

(** The counter animation, between two whole numbers: every frame shows a
    whole number between the start and the target (no overshoot); the first
    frame shows the start; a frame at or after [duration] shows the target
    and asks for no further frame, and every earlier frame asks for one. *)
Theorem animation_lands (startValue value : Z) (duration elapsed : Q) :
  0 < duration → 0 <= elapsed →
  let frame := animate (inject_Z startValue) (inject_Z value) duration elapsed in
  ((startValue ≤ value)%Z → (startValue ≤ frame.1 ∧ frame.1 ≤ value)%Z)
  ∧ ((value ≤ startValue)%Z → (value ≤ frame.1 ∧ frame.1 ≤ startValue)%Z)
  ∧ (elapsed == 0 → frame.1 = startValue)
  ∧ (duration <= elapsed → frame = (value, false))
  ∧ (elapsed < duration → frame.2 = true).
Proof.
  intros Hd He frame. unfold frame, animate. cbn [fst snd].
  set (q := elapsed / duration).
  assert (Hq0 : 0 <= q) by (apply Qle_shift_div_l; [done|lra]).
  set (p := Qmin q 1).
  assert (Hp0 : 0 <= p) by (apply Q.min_glb; [done|discriminate]).
  assert (Hp1 : p <= 1) by apply Q.le_min_r.
  destruct (ease_bounds p Hp0 Hp1) as [He0 He1].
  pose proof (ease_0 p) as Hz. pose proof (ease_1 p) as Ho.
  set (e := 1 - (1 - p) ^ 3) in *.
  set (s := inject_Z startValue). set (v := inject_Z value).
  split; [|split; [|split; [|split]]].
  - intros H. rewrite Zle_Qle in H.
    apply Math_round_between; by apply lerp_up.
  - intros H. rewrite Zle_Qle in H.
    apply Math_round_between; by apply lerp_down.
  - intros H0.
    assert (Hq : q == 0) by (unfold q; rewrite H0; field; lra).
    assert (Hpq : p == 0).
    { unfold p. rewrite Hq. apply Q.min_l. discriminate. }
    transitivity (Math_round s); [|apply Math_round_Z].
    unfold Math_round. apply Qfloor_comp. rewrite (Hz Hpq). ring.
  - intros Hlate.
    assert (Hq1 : 1 <= q) by (apply Qle_shift_div_l; [done|lra]).
    assert (Hpq : p == 1) by (unfold p; by apply Q.min_r).
    f_equal.
    + transitivity (Math_round v); [|apply Math_round_Z].
      unfold Math_round. apply Qfloor_comp. rewrite (Ho Hpq). ring.
    + unfold lt. apply negb_false_iff, Qle_bool_iff. rewrite Hpq. apply Qle_refl.
  - intros Hearly.
    assert (Hq1 : q < 1) by (apply Qlt_shift_div_r; [done|lra]).
    unfold lt. apply negb_true_iff, not_true_iff_false.
    rewrite Qle_bool_iff. apply Qlt_not_le.
    unfold p. destruct (Q.min_spec q 1) as [[_ ->]|[Hge _]]; [done|lra].
Qed.

Lemma animation_lands_witness :
  animate (inject_Z 3) (inject_Z 10) 300 300 = (10%Z, false)
  ∧ (3 ≤ (animate (inject_Z 3) (inject_Z 10) 300 150).1
     ∧ (animate (inject_Z 3) (inject_Z 10) 300 150).1 ≤ 10)%Z.
Proof.
  split.
  - apply (animation_lands 3 10 300 300); [reflexivity|discriminate|].
    apply Qle_refl.
  - apply (animation_lands 3 10 300 150); [reflexivity|discriminate|lia].
Defined.

End Animation.

(** ** More on the store and the log entries *)

Section StoreMore.
Import UseRealtime.

(** As long as the election type is not changed after the mount, every
    snapshot holds rows of that type only, whatever loads, polls, pushes
    and status changes occur and in whatever order. *)
Theorem clean_while_type_fixed (e : ElectionType) (evs : list Event) :
  no_switch (mount e) evs → snapshot_clean (run (mount e) evs).
Proof.
  intros Hns.
  by apply (settled_run (mount e) evs (settled_mount e) Hns).
Qed.

Lemma clean_while_type_fixed_witness :
  snapshot_clean
    (run (mount midterm)
       [PollTick; FetchResolved 1 Fixtures.remote_table;
        PostgresChanges midterm Fixtures.pct1101_presidential;
        SubscribeStatus midterm true; Refresh;
        FetchResolved 0 Fixtures.remote_table]).
Proof.
  apply (clean_while_type_fixed midterm
           [PollTick; FetchResolved 1 Fixtures.remote_table;
            PostgresChanges midterm Fixtures.pct1101_presidential;
            SubscribeStatus midterm true; Refresh;
            FetchResolved 0 Fixtures.remote_table]).
  simpl. tauto.
Defined.

End StoreMore.

Section LabelsMore.
Import Js Dashboard.

(** A log entry never has a blank neighbourhood: a precinct missing from
    the lookup, or present with an empty name, is shown as "Unknown"; any
    other name is shown as it is. *)
Theorem neighbourhood_never_blank (lookup : gmap string string)
    (posteriors : gmap string PosteriorEstimate) (sub : PollSubmission) :
  neighborhood (newSignal lookup posteriors sub) ≠ ""
  ∧ (lookup !! sub_geo_id sub = None ∨ lookup !! sub_geo_id sub = Some "" →
     neighborhood (newSignal lookup posteriors sub) = "Unknown")
  ∧ (∀ name, lookup !! sub_geo_id sub = Some name → name ≠ "" →
       neighborhood (newSignal lookup posteriors sub) = name).
Proof.
  simpl. unfold or_else.
  destruct (lookup !! sub_geo_id sub) as [name|] eqn:Hl.
  - case_decide as Hn.
    + subst name. split; [done|]. split; [done|].
      intros name [= <-] Hne. by destruct Hne.
    + split; [done|]. split.
      * intros [H|[= H]]; [discriminate H|by destruct Hn].
      * by intros name' [= <-] _.
  - split; [done|]. split; [done|]. intros name H. discriminate H.
Qed.

Lemma neighbourhood_never_blank_witness :
  neighborhood (newSignal {[ "PCT_1101" := "" ]} ∅
                  (Fixtures.submission "PCT_1101")) = "Unknown"
  ∧ neighborhood (newSignal {[ "PCT_1101" := "Mission" ]} ∅
                    (Fixtures.submission "PCT_1101")) = "Mission".
Proof.
  split.
  - apply (proj1 (proj2 (neighbourhood_never_blank {[ "PCT_1101" := "" ]} ∅
                            (Fixtures.submission "PCT_1101")))).
    right. reflexivity.
  - apply (proj2 (proj2 (neighbourhood_never_blank
                            {[ "PCT_1101" := "Mission" ]} ∅
                            (Fixtures.submission "PCT_1101"))));
      [reflexivity|discriminate].
Defined.

End LabelsMore.
